(** * Fetched-state stores of [threatexchange.exchanges.helpers]

    A shallow embedding of [_StateTracker], [SimpleFetchedStateStore] and
    [DBMFetchedStateStore], and the properties of their merge / flush /
    checkpoint protocol.

    Conventions.
    - A Python value is an element of an abstract type [Val] with decidable
      equality and a distinguished element [PyNone]; [Optional[...]] fields
      hold [PyNone] when absent.  Equality of values is Python's [==].
    - A [dict] keyed by record id is a [gmap string Val]; the dict
      [SimpleFetchedStateStore._state], whose iteration order decides the
      order of the writes of [flush], is an insertion-ordered association
      list.
    - The class-level collaborators [naive_fetch_merge] and
      [naive_convert_to_signal_type] and the two persistence hooks
      [_read_state] / [_write_state] are parameters.  [naive_fetch_merge]
      mutates its first argument in place; the parameter gives the contents
      of that argument after the call.  Deltas handed to [merge] are taken
      by value: a caller is assumed not to hand back the very object the
      tracker already owns. *)

From stdpp Require Import gmap strings list fin_maps.

(** ** Exceptions *)

Inductive exn := AssertionError | NotImplementedError.

Inductive result (A : Type) : Type :=
  | Ok (a : A)
  | Raise (e : exn).
Arguments Ok {A} a.
Arguments Raise {A} e.

(** ** Insertion-ordered dictionaries (Python [dict]) *)

Section pydict.
Context {V : Type}.

(** [d.get(k)] / [k in d]. *)
Fixpoint dict_get (k : string) (d : list (string * V)) : option V :=
  match d with
  | [] => None
  | (k', v) :: d' => if decide (k' = k) then Some v else dict_get k d'
  end.

(** [d[k] = v]: an existing key keeps its position, a new key goes last. *)
Fixpoint dict_set (k : string) (v : V) (d : list (string * V)) : list (string * V) :=
  match d with
  | [] => [(k, v)]
  | (k', v') :: d' =>
      if decide (k' = k) then (k', v) :: d' else (k', v') :: dict_set k v d'
  end.

(** [d.pop(k, None)], the popped value dropped. *)
Fixpoint dict_pop (k : string) (d : list (string * V)) : list (string * V) :=
  match d with
  | [] => []
  | (k', v') :: d' =>
      if decide (k' = k) then d' else (k', v') :: dict_pop k d'
  end.

End pydict.

(** ** The model *)

Section helpers.
Set Default Proof Using "Type".

(** Python values, with [None]. *)
Context {Val : Type} {Val_eq_dec : EqDecision Val} (PyNone : Val).
(** [CollaborationConfigBase]: only [collab.name] is read here. *)
Context {Collab : Type} (name : Collab → string).
(** Signal types and the metadata a conversion yields. *)
Context {SignalType : Type} `{Countable SignalType} {Meta : Type}.
(** [api_cls.naive_fetch_merge(old, new)]: the contents of [old] afterwards. *)
Context (naive_fetch_merge : gmap string Val → gmap string Val → gmap string Val).
(** [api_cls.naive_convert_to_signal_type(signal_types, collab, updates)]. *)
Context (naive_convert_to_signal_type :
  list SignalType → Collab → gmap string Val → gmap SignalType (gmap string Meta)).

(** [fetch_state.FetchDelta]: a batch of updates and the checkpoint reached. *)
Record FetchDelta := mkDelta {
  updates : gmap string Val;
  checkpoint : Val
}.

#[local] Instance FetchDelta_eq_dec : EqDecision FetchDelta.
Proof using Val_eq_dec. solve_decision. Defined.

(** *** [_StateTracker] *)

(** The dataclass; [api_cls] is the store's and is the section's parameter. *)
Record _StateTracker := mkTracker {
  _delta : option FetchDelta;
  dirty : bool
}.

(** [_StateTracker(api_cls, delta)]: [dirty] defaults to [False]. *)
Definition Tracker_new (delta : option FetchDelta) : _StateTracker :=
  {| _delta := delta; dirty := false |}.

(** Property [empty]. *)
Definition Tracker_empty (t : _StateTracker) : bool :=
  match _delta t with
  | None => true
  | Some _ => false
  end.

(** Property [delta] (getter): [assert self._delta is not None]. *)
Definition Tracker_delta (t : _StateTracker) : result FetchDelta :=
  match _delta t with
  | None => Raise AssertionError
  | Some d => Ok d
  end.

(** Property [delta] (setter).  An empty tracker adopts [value] as its
    delta object and merges into a fresh dict; otherwise the merge is into the
    dict the tracker holds.  Either way the delta object then gets the merged
    dict and [value]'s checkpoint. *)
Definition Tracker_set_delta (value : FetchDelta) (t : _StateTracker) : _StateTracker :=
  let '(old, self_delta) :=
    match _delta t with
    | None => (∅, value)
    | Some d => (updates d, d)
    end in
  let old := naive_fetch_merge old (updates value) in
  let self_delta := {| updates := old; checkpoint := checkpoint self_delta |} in
  let self_delta := {| updates := updates self_delta; checkpoint := checkpoint value |} in
  {| _delta := Some self_delta; dirty := true |}.

(** Property [checkpoint]: no assertion, [None] when there is no delta. *)
Definition Tracker_checkpoint (t : _StateTracker) : result Val :=
  Ok match _delta t with
     | None => PyNone
     | Some d => checkpoint d
     end.

(** The no-op test shared by both [merge] methods:
    [len(delta.updates) == 0 and delta.checkpoint in (None, known)]. *)
Definition is_noop (delta : FetchDelta) (known : Val) : bool :=
  bool_decide (updates delta = ∅)
  && (bool_decide (checkpoint delta = PyNone) || bool_decide (checkpoint delta = known)).

(** *** [SimpleFetchedStateStore] *)

(** The persistence a subclass supplies: what [_read_state] finds in the
    backing store and what [_write_state] does to it. *)
Context {Backing : Type}.
Context (_read_state : Backing → string → option FetchDelta).
Context (_write_state : string → FetchDelta → Backing → Backing).

(** The store object: the tracker dict, the subclass's backing store, and a
    record of every call of [_write_state] (oldest first). *)
Record SimpleFetchedStateStore := mkSimple {
  _state : list (string * _StateTracker);
  backing : Backing;
  written : list (string * FetchDelta)
}.

(** [SimpleFetchedStateStore(api_cls)] over a given backing store. *)
Definition Simple_init (b : Backing) : SimpleFetchedStateStore :=
  {| _state := []; backing := b; written := [] |}.

(** Methods run on the store and may raise; what they did to the store
    before raising stays done. *)
Definition M (A : Type) : Type :=
  SimpleFetchedStateStore → result A * SimpleFetchedStateStore.

#[local] Instance M_ret : MRet M := λ A a s, (Ok a, s).
#[local] Instance M_bind : MBind M := λ A B k m s,
  match m s with
  | (Ok a, s') => k a s'
  | (Raise e, s') => (Raise e, s')
  end.

Definition lift {A} (r : result A) : M A := λ s, (r, s).

(** [_get_state]: the tracker of [collab], loaded on first use. *)
Definition _get_state (collab : Collab) : M _StateTracker := λ s,
  match dict_get (name collab) (_state s) with
  | Some state => (Ok state, s)
  | None =>
      let delta := _read_state (backing s) (name collab) in
      let state := Tracker_new delta in
      (Ok state,
       {| _state := dict_set (name collab) state (_state s);
          backing := backing s; written := written s |})
  end.

(** A mutation of the tracker object held under [collab_name]. *)
Definition Simple_put_state (collab_name : string) (state : _StateTracker) : M unit := λ s,
  (Ok tt,
   {| _state := dict_set collab_name state (_state s);
      backing := backing s; written := written s |}).

Definition Simple_get_checkpoint (collab : Collab) : M Val :=
  state ← _get_state collab;
  lift (Tracker_checkpoint state).

Definition Simple_clear (collab : Collab) : M unit := λ s,
  (Ok tt,
   {| _state := dict_pop (name collab) (_state s);
      backing := backing s; written := written s |}).

Definition Simple_merge (collab : Collab) (delta : FetchDelta) : M unit :=
  state ← _get_state collab;
  known ← lift (Tracker_checkpoint state);
  if is_noop delta known then mret tt
  else Simple_put_state (name collab) (Tracker_set_delta delta state).

(** The loop of [flush] over [self._state.items()]: the trackers already
    visited (as left by the loop), the backing store and the write record. *)
Fixpoint flush_items (items : list (string * _StateTracker))
    (b : Backing) (w : list (string * FetchDelta))
  : result unit * (list (string * _StateTracker) * Backing * list (string * FetchDelta)) :=
  match items with
  | [] => (Ok tt, ([], b, w))
  | (collab_name, state) :: rest =>
      if dirty state then
        match Tracker_delta state with
        | Raise e => (Raise e, ((collab_name, state) :: rest, b, w))
        | Ok d =>
            let b := _write_state collab_name d b in
            let w := w ++ [(collab_name, d)] in
            let state := {| _delta := _delta state; dirty := false |} in
            let '(r, (rest, b, w)) := flush_items rest b w in
            (r, ((collab_name, state) :: rest, b, w))
        end
      else
        let '(r, (rest, b, w)) := flush_items rest b w in
        (r, ((collab_name, state) :: rest, b, w))
  end.

Definition Simple_flush (collab : Collab) : M unit := λ s,
  let '(r, (items, b, w)) := flush_items (_state s) (backing s) (written s) in
  (r, {| _state := items; backing := b; written := w |}).

(** The loop of [get_for_signal_type], [ret] being the dict built so far. *)
Fixpoint Simple_get_for_signal_type_loop (collabs : list Collab)
    (signal_type : SignalType) (ret : gmap string (gmap string Meta))
  : M (gmap string (gmap string Meta)) :=
  match collabs with
  | [] => mret ret
  | collab :: rest =>
      state ← _get_state collab;
      ret ← (if negb (Tracker_empty state) then
               d ← lift (Tracker_delta state);
               let by_signal :=
                 default ∅ (naive_convert_to_signal_type [signal_type] collab (updates d)
                              !! signal_type) in
               mret (if decide (by_signal = ∅) then ret
                     else <[name collab := by_signal]> ret)
             else mret ret);
      Simple_get_for_signal_type_loop rest signal_type ret
  end.

Definition Simple_get_for_signal_type (collabs : list Collab)
    (signal_type : SignalType) : M (gmap string (gmap string Meta)) :=
  Simple_get_for_signal_type_loop collabs signal_type ∅.

Definition Simple_exists (collab : Collab) : M bool :=
  lift (Raise NotImplementedError).

(** *** [DBMStorage] *)

(** One durable mutation: [set] of a key in a namespace, or [drop] of a
    namespace. *)
Inductive dbm_write :=
  | WSet (ns key : string) (value : Val)
  | WDrop (ns : string).

(** Modelled from the spec: [threatexchange.exchanges.storage.DBMStorage] is
    imported by the module and is not among the sources.  The spec gives it as
    a key-value store with [connect(namespace) -> handle] exposing [get(key)],
    [set(key, value)], iteration over all entries, [exists()] and [drop()].
    Every [DBMStorage()] reaches the same durable namespaces; a handle is the
    name of its namespace.  [journal] records the mutations, oldest first. *)
Record DBMStorage := mkDBM {
  namespaces : gmap string (gmap string Val);
  journal : list dbm_write
}.

Definition DBM_empty : DBMStorage := {| namespaces := ∅; journal := [] |}.

(** Modelled from the spec: [get(key)] of a handle, [None] for a key (or a
    namespace) that was never set, as [get_checkpoint] returns none before
    any flush. *)
Definition db_get (ns key : string) (σ : DBMStorage) : Val :=
  default PyNone (namespaces σ !! ns ≫= (.!! key)).

(** Modelled from the spec: [set(key, value)] of a handle; the namespace
    exists from its first [set]. *)
Definition db_set (ns key : string) (value : Val) (σ : DBMStorage) : DBMStorage :=
  {| namespaces := <[ns := <[key := value]> (default ∅ (namespaces σ !! ns))]> (namespaces σ);
     journal := journal σ ++ [WSet ns key value] |}.

(** Modelled from the spec: iteration over all entries of a handle, as
    collected by [{k: v for k, v in db}]. *)
Definition db_items (ns : string) (σ : DBMStorage) : gmap string Val :=
  default ∅ (namespaces σ !! ns).

(** Modelled from the spec: [exists()] of a handle, "whether any durable
    state has ever been written". *)
Definition db_exists (ns : string) (σ : DBMStorage) : bool :=
  bool_decide (is_Some (namespaces σ !! ns)).

(** Modelled from the spec: [drop()] of a handle. *)
Definition db_drop (ns : string) (σ : DBMStorage) : DBMStorage :=
  {| namespaces := delete ns (namespaces σ);
     journal := journal σ ++ [WDrop ns] |}.

(** *** [DBMFetchedStateStore] *)

(** The store object holds [api_cls] only; its state is the storage. *)

(** [f'{collab.name}_checkpoint']. *)
Definition checkpoint_ns (collab : Collab) : string := name collab +:+ "_checkpoint".

Fixpoint DBM_get_for_signal_type_loop (collabs : list Collab)
    (signal_type : SignalType) (ret : gmap string (gmap string Meta))
    (σ : DBMStorage) : gmap string (gmap string Meta) :=
  match collabs with
  | [] => ret
  | collab :: rest =>
      let data := db_items (name collab) σ in
      let by_signal :=
        default ∅ (naive_convert_to_signal_type [signal_type] collab data !! signal_type) in
      let ret := if decide (by_signal = ∅) then ret
                 else <[name collab := by_signal]> ret in
      DBM_get_for_signal_type_loop rest signal_type ret σ
  end.

Definition DBM_get_for_signal_type (collabs : list Collab)
    (signal_type : SignalType) (σ : DBMStorage) : gmap string (gmap string Meta) :=
  DBM_get_for_signal_type_loop collabs signal_type ∅ σ.

Definition DBM_clear (collab : Collab) (σ : DBMStorage) : DBMStorage :=
  db_drop (name collab) σ.

Definition DBM_exists (collab : Collab) (σ : DBMStorage) : bool :=
  db_exists (name collab) σ.

Definition DBM_flush (collab : Collab) (σ : DBMStorage) : DBMStorage :=
  let db := checkpoint_ns collab in
  db_set db "checkpoint" (db_get db "_checkpoint" σ) σ.

(** The loop [for k, v in delta.updates.items(): db.set(k, v)]. *)
Definition DBM_write_updates (db : string) (items : list (string * Val))
    (σ : DBMStorage) : DBMStorage :=
  foldl (λ σ kv, db_set db kv.1 kv.2 σ) σ items.

Definition DBM_merge (collab : Collab) (delta : FetchDelta) (σ : DBMStorage) : DBMStorage :=
  let db_cp := checkpoint_ns collab in
  if is_noop delta (db_get db_cp "checkpoint" σ) then σ
  else
    let db := name collab in
    let σ := DBM_write_updates db (map_to_list (updates delta)) σ in
    db_set db_cp "_checkpoint" (checkpoint delta) σ.

Definition DBM_get_checkpoint (collab : Collab) (σ : DBMStorage) : Val :=
  db_get (checkpoint_ns collab) "checkpoint" σ.

(** *** Calls of the store interface *)

(** One call of a method of [FetchedStateStoreBase]. *)
Inductive api_call :=
  | GetCheckpoint (collab : Collab)
  | Clear (collab : Collab)
  | Merge (collab : Collab) (delta : FetchDelta)
  | Flush (collab : Collab)
  | GetForSignalType (collabs : list Collab) (signal_type : SignalType)
  | Exists (collab : Collab).

Definition is_flush (o : api_call) : bool :=
  match o with
  | Flush _ => true
  | _ => false
  end.

(** The store a call leaves behind, whether it returned or raised. *)
Definition Simple_do (o : api_call) (s : SimpleFetchedStateStore) : SimpleFetchedStateStore :=
  match o with
  | GetCheckpoint collab => (Simple_get_checkpoint collab s).2
  | Clear collab => (Simple_clear collab s).2
  | Merge collab delta => (Simple_merge collab delta s).2
  | Flush collab => (Simple_flush collab s).2
  | GetForSignalType collabs signal_type =>
      (Simple_get_for_signal_type collabs signal_type s).2
  | Exists collab => (Simple_exists collab s).2
  end.

Definition Simple_run (calls : list api_call) (s : SimpleFetchedStateStore)
  : SimpleFetchedStateStore :=
  foldl (λ s o, Simple_do o s) s calls.

(** The storage a call leaves behind. *)
Definition DBM_do (o : api_call) (σ : DBMStorage) : DBMStorage :=
  match o with
  | GetCheckpoint _ | GetForSignalType _ _ | Exists _ => σ
  | Clear collab => DBM_clear collab σ
  | Merge collab delta => DBM_merge collab delta σ
  | Flush collab => DBM_flush collab σ
  end.

Definition DBM_run (calls : list api_call) (σ : DBMStorage) : DBMStorage :=
  foldl (λ σ o, DBM_do o σ) σ calls.

(** *** Vocabulary of the properties *)

(** [state.dirty = False]. *)
Definition mark_clean (t : _StateTracker) : _StateTracker :=
  {| _delta := _delta t; dirty := false |}.

(** The writes a [flush] owes: the deltas of the dirty trackers, in dict
    order. *)
Definition pending (items : list (string * _StateTracker)) : list (string * FetchDelta) :=
  omap (λ kt, if dirty kt.2 then pair kt.1 <$> _delta kt.2 else None) items.

(** A well-formed store: [_state] has each key once, as a dict does, and a
    dirty tracker holds a delta. *)
Definition Simple_wf (s : SimpleFetchedStateStore) : Prop :=
  NoDup (_state s).*1
  ∧ Forall (λ kt, dirty kt.2 = true → is_Some (_delta kt.2)) (_state s).

(** The checkpoint a tracker knows: what property [checkpoint] returns. *)
Definition known_checkpoint (t : _StateTracker) : Val :=
  match _delta t with
  | None => PyNone
  | Some d => checkpoint d
  end.

(** The update map a tracker has accumulated, empty when it has none. *)
Definition tracker_updates (t : _StateTracker) : gmap string Val :=
  match _delta t with
  | None => ∅
  | Some d => updates d
  end.

(** The tracker [_get_state] hands out for [collab]: the one in [_state], or
    the one it makes of what [_read_state] finds. *)
Definition tracker_of (collab : Collab) (s : SimpleFetchedStateStore) : _StateTracker :=
  default (Tracker_new (_read_state (backing s) (name collab)))
    (dict_get (name collab) (_state s)).

(** The records of [signal_type] a collaboration contributes in the in-memory
    store: the conversion of its tracker's update map, nothing when the
    tracker is empty. *)
Definition Simple_records (collab : Collab) (signal_type : SignalType)
    (s : SimpleFetchedStateStore) : gmap string Meta :=
  match _delta (tracker_of collab s) with
  | None => ∅
  | Some d =>
      default ∅ (naive_convert_to_signal_type [signal_type] collab (updates d) !! signal_type)
  end.

(** The same in the persistent store: the conversion of its data namespace. *)
Definition DBM_records (collab : Collab) (signal_type : SignalType)
    (σ : DBMStorage) : gmap string Meta :=
  default ∅ (naive_convert_to_signal_type [signal_type] collab (db_items (name collab) σ)
               !! signal_type).

(** What [merge] does to the tracker it is handed. *)
Definition merge_step (t : _StateTracker) (delta : FetchDelta) : _StateTracker :=
  if is_noop delta (known_checkpoint t) then t else Tracker_set_delta delta t.

(** The deltas of a run of merges that pass the no-op test, [known] being the
    checkpoint the tracker knows before the run. *)
Fixpoint applied (known : Val) (deltas : list FetchDelta) : list FetchDelta :=
  match deltas with
  | [] => []
  | d :: deltas =>
      if is_noop d known then applied known deltas
      else d :: applied (checkpoint d) deltas
  end.


(** The dict [get_for_signal_type] builds from [ret] when [records] gives
    the records each collaboration contributes: an entry per collaboration
    that contributes some, a later one replacing an earlier one of the same
    name. *)
Definition collect_records (records : Collab → gmap string Meta)
    (collabs : list Collab) (ret : gmap string (gmap string Meta))
  : gmap string (gmap string Meta) :=
  foldl (λ ret collab,
           let by_signal := records collab in
           if decide (by_signal = ∅) then ret
           else <[name collab := by_signal]> ret) ret collabs.

(** The collaboration a call is made for; [get_for_signal_type] takes a
    list and, in the persistent store, only reads. *)
Definition call_collab (o : api_call) : option Collab :=
  match o with
  | GetCheckpoint c | Clear c | Merge c _ | Flush c | Exists c => Some c
  | GetForSignalType _ _ => None
  end.

(** The data namespace a call of the persistent store sets keys of or
    drops. *)
Definition data_ns_of (o : api_call) : option string :=
  match o with
  | Clear c | Merge c _ => Some (name c)
  | _ => None
  end.

(** ** Properties *)

(** *** Dictionaries *)

Lemma dict_get_set_eq {V} (k : string) (v : V) d :
  dict_get k (dict_set k v d) = Some v.
Proof.
  induction d as [|[k' v'] d IH]; csimpl.
  - by rewrite decide_True.
  - destruct (decide (k' = k)) as [->|Hne]; csimpl.
    + by rewrite decide_True.
    + by rewrite decide_False.
Qed.

Lemma dict_get_set_ne {V} (k k' : string) (v : V) d :
  k ≠ k' → dict_get k' (dict_set k v d) = dict_get k' d.
Proof.
  intros Hne. induction d as [|[k0 v0] d IH]; csimpl.
  - by rewrite decide_False.
  - destruct (decide (k0 = k)) as [->|Hne0]; csimpl.
    + by rewrite !decide_False.
    + destruct (decide (k0 = k')); auto.
Qed.

Lemma dict_get_None {V} (k : string) (d : list (string * V)) :
  dict_get k d = None ↔ k ∉ d.*1.
Proof.
  induction d as [|[k' v'] d IH]; csimpl.
  - split; [intros _; apply not_elem_of_nil | done].
  - rewrite not_elem_of_cons. destruct (decide (k' = k)) as [->|Hne].
    + split; [done | intros [? _]; done].
    + rewrite IH. split; [intros ?; split; [congruence | done] | intros [_ ?]; done].
Qed.

Lemma dict_get_Some_elem {V} (k : string) (v : V) d :
  dict_get k d = Some v → (k, v) ∈ d.
Proof.
  induction d as [|[k' v'] d IH]; csimpl; [done|].
  destruct (decide (k' = k)) as [->|Hne].
  - intros [= ->]. apply elem_of_cons; auto.
  - intros ?. apply elem_of_cons; auto.
Qed.

Lemma dict_elem_get {V} (k : string) (v : V) d :
  NoDup d.*1 → (k, v) ∈ d → dict_get k d = Some v.
Proof.
  induction d as [|[k' v'] d IH]; csimpl.
  - intros _ ?%elem_of_nil. done.
  - rewrite NoDup_cons. intros [Hk' Hnd] [Heq|Hin]%elem_of_cons.
    + simplify_eq. by rewrite decide_True.
    + rewrite decide_False; [auto|].
      intros ->. apply Hk'. apply list_elem_of_fmap. by exists (k, v).
Qed.

Lemma dict_set_keys_present {V} (k : string) (v : V) d :
  k ∈ d.*1 → (dict_set k v d).*1 = d.*1.
Proof.
  induction d as [|[k' v'] d IH]; csimpl.
  - by intros ?%elem_of_nil.
  - destruct (decide (k' = k)) as [->|Hne]; csimpl; [done|].
    intros [?|?]%elem_of_cons; [congruence|]. by rewrite IH.
Qed.

Lemma dict_set_keys_fresh {V} (k : string) (v : V) d :
  k ∉ d.*1 → (dict_set k v d).*1 = d.*1 ++ [k].
Proof.
  induction d as [|[k' v'] d IH]; csimpl; [done|].
  rewrite not_elem_of_cons. intros [Hne Hnin].
  rewrite decide_False by done. csimpl. by rewrite IH.
Qed.

Lemma dict_set_NoDup {V} (k : string) (v : V) d :
  NoDup d.*1 → NoDup (dict_set k v d).*1.
Proof.
  intros Hnd. destruct (decide (k ∈ d.*1)) as [Hin|Hnin].
  - by rewrite dict_set_keys_present.
  - rewrite dict_set_keys_fresh by done.
    apply NoDup_app. split_and!; [done | | apply NoDup_singleton].
    intros x Hx ->%list_elem_of_singleton. done.
Qed.

Lemma dict_pop_subseteq {V} (k : string) (d : list (string * V)) :
  dict_pop k d ⊆ d.
Proof.
  induction d as [|[k' v'] d IH]; csimpl; [done|].
  destruct (decide (k' = k)).
  - intros x ?. apply elem_of_cons; auto.
  - intros x [->|?]%elem_of_cons; apply elem_of_cons; auto.
Qed.

Lemma dict_pop_NoDup {V} (k : string) (d : list (string * V)) :
  NoDup d.*1 → NoDup (dict_pop k d).*1.
Proof.
  induction d as [|[k' v'] d IH]; csimpl; [done|].
  rewrite NoDup_cons. intros [Hk' Hnd].
  destruct (decide (k' = k)); [done|]. csimpl.
  apply NoDup_cons. split; [|auto].
  intros (x & Hx1 & Hx2)%list_elem_of_fmap. apply Hk'.
  apply list_elem_of_fmap. exists x. split; [done|].
  by apply (dict_pop_subseteq k d).
Qed.

Lemma dict_get_pop_eq {V} (k : string) (d : list (string * V)) :
  NoDup d.*1 → dict_get k (dict_pop k d) = None.
Proof.
  induction d as [|[k' v'] d IH]; csimpl; [done|].
  rewrite NoDup_cons. intros [Hk' Hnd].
  destruct (decide (k' = k)) as [->|Hne].
  - by apply dict_get_None.
  - csimpl. rewrite decide_False by done. auto.
Qed.

Lemma dict_get_pop_ne {V} (k k' : string) (d : list (string * V)) :
  k ≠ k' → dict_get k' (dict_pop k d) = dict_get k' d.
Proof.
  intros Hne. induction d as [|[k0 v0] d IH]; csimpl; [done|].
  destruct (decide (k0 = k)) as [->|Hne0]; csimpl.
  - by rewrite decide_False.
  - destruct (decide (k0 = k')); auto.
Qed.

(** *** The tracker dict of the in-memory store *)

Lemma get_state_result collab s :
  ∃ state, _get_state collab s = (Ok state, (_get_state collab s).2)
    ∧ dict_get (name collab) (_state (_get_state collab s).2) = Some state
    ∧ state = tracker_of collab s.
Proof.
  unfold _get_state, tracker_of.
  destruct (dict_get (name collab) (_state s)) as [t|] eqn:Hget.
  - exists t. done.
  - eexists. split; [done|]. split; [|done]. csimpl. apply dict_get_set_eq.
Qed.

Lemma get_state_tracked collab s state :
  dict_get (name collab) (_state s) = Some state →
  _get_state collab s = (Ok state, s).
Proof. intros Hget. unfold _get_state. by rewrite Hget. Qed.

Lemma get_state_backing collab s :
  backing (_get_state collab s).2 = backing s ∧ written (_get_state collab s).2 = written s.
Proof. unfold _get_state. by destruct (dict_get _ _). Qed.

Lemma get_state_other collab s n :
  n ≠ name collab →
  dict_get n (_state (_get_state collab s).2) = dict_get n (_state s).
Proof.
  intros Hne. unfold _get_state. destruct (dict_get (name collab) _); [done|].
  csimpl. by apply dict_get_set_ne.
Qed.

(** Loading one collaboration does not change what loading another gives. *)
Lemma get_state_stable collab collab' s :
  (_get_state collab (_get_state collab' s).2).1 = (_get_state collab s).1.
Proof.
  destruct (get_state_result collab (_get_state collab' s).2) as (t1 & -> & _ & ->).
  destruct (get_state_result collab s) as (t2 & -> & _ & ->). csimpl. f_equal.
  unfold tracker_of. destruct (get_state_backing collab' s) as [-> _].
  destruct (decide (name collab = name collab')) as [Heq|Hne].
  - destruct (get_state_result collab' s) as (t & _ & Hget & ->).
    rewrite Heq, Hget. unfold tracker_of.
    by destruct (dict_get (name collab') (_state s)).
  - by rewrite get_state_other.
Qed.

Lemma Simple_wf_init b : Simple_wf (Simple_init b).
Proof. split; [apply NoDup_nil_2 | apply Forall_nil_2]. Qed.

Lemma dict_set_Forall {V} (P : string * V → Prop) k v d :
  P (k, v) → Forall P d → Forall P (dict_set k v d).
Proof.
  intros HP. induction 1 as [|[k' v'] d Hx Hd IH]; csimpl.
  - by apply Forall_singleton.
  - destruct (decide (k' = k)) as [->|]; apply Forall_cons; auto.
Qed.

Lemma get_state_wf collab s : Simple_wf s → Simple_wf (_get_state collab s).2.
Proof.
  intros [Hnd Hall]. unfold _get_state.
  destruct (dict_get (name collab) (_state s)); [done|]. split; csimpl.
  - by apply dict_set_NoDup.
  - apply dict_set_Forall; [|done]. csimpl. done.
Qed.

Lemma put_state_wf n state s :
  (dirty state = true → is_Some (_delta state)) →
  Simple_wf s → Simple_wf (Simple_put_state n state s).2.
Proof.
  intros Hst [Hnd Hall]. split; csimpl.
  - by apply dict_set_NoDup.
  - by apply dict_set_Forall.
Qed.

Lemma clear_wf collab s : Simple_wf s → Simple_wf (Simple_clear collab s).2.
Proof.
  intros [Hnd Hall]. split; csimpl.
  - by apply dict_pop_NoDup.
  - rewrite Forall_forall in *. intros x Hx. apply Hall.
    by apply (dict_pop_subseteq (name collab)).
Qed.

(** *** The loop of [flush] *)

(** What the loop leaves, whether or not it raises: the same keys in the same
    order, and each write it made was of a dirty tracker's delta. *)
Lemma flush_items_shape items b w :
  ∃ ws, (flush_items items b w).2.2 = w ++ ws
    ∧ (flush_items items b w).2.1.2 = foldl (λ b nd, _write_state nd.1 nd.2 b) b ws
    ∧ (flush_items items b w).2.1.1.*1 = items.*1
    ∧ ws `sublist_of` pending items
    ∧ Forall2 (λ kt kt', kt'.2 = kt.2 ∨ kt'.2 = mark_clean kt.2)
        items (flush_items items b w).2.1.1.
Proof.
  revert b w. induction items as [|[n t] items IH]; intros b w; csimpl.
  - exists []. by rewrite app_nil_r.
  - destruct t as [[d|] [|]]; csimpl.
    + destruct (IH (_write_state n d b) (w ++ [(n, d)])) as (ws & Hw & Hb & Hk & Hsub & Hall).
      destruct (flush_items items _ _) as [r [[items' b'] w']]. csimpl in *.
      exists ((n, d) :: ws). rewrite Hw, Hb, Hk, <-app_assoc. csimpl.
      split_and!; try done; [by apply sublist_skip|].
      apply Forall2_cons; auto.
    + destruct (IH b w) as (ws & Hw & Hb & Hk & Hsub & Hall).
      destruct (flush_items items _ _) as [r [[items' b'] w']]. csimpl in *.
      exists ws. rewrite Hw, Hb, Hk. split_and!; try done.
      apply Forall2_cons; auto.
    + exists []. rewrite app_nil_r. split_and!; try done; [apply sublist_nil_l|].
      apply Forall_Forall2_diag, Forall_true. auto.
    + destruct (IH b w) as (ws & Hw & Hb & Hk & Hsub & Hall).
      destruct (flush_items items _ _) as [r [[items' b'] w']]. csimpl in *.
      exists ws. rewrite Hw, Hb, Hk. split_and!; try done.
      apply Forall2_cons; auto.
Qed.

(** On a dict whose dirty trackers all hold a delta the loop returns, having
    written every dirty tracker once, in dict order, and marked it clean. *)
Lemma flush_items_ok items b w :
  Forall (λ kt : string * _StateTracker, dirty kt.2 = true → is_Some (_delta kt.2)) items →
  flush_items items b w
  = (Ok tt, (prod_map id mark_clean <$> items,
             foldl (λ b nd, _write_state nd.1 nd.2 b) b (pending items),
             w ++ pending items)).
Proof.
  intros Hall. revert b w. induction Hall as [|[n t] items Ht Hall IH]; intros b w; csimpl.
  - by rewrite app_nil_r.
  - destruct t as [[d|] [|]]; csimpl in *.
    + rewrite IH. csimpl. by rewrite <-app_assoc.
    + by rewrite IH.
    + by destruct Ht as [? [=]].
    + by rewrite IH.
Qed.

Lemma flush_wf collab s : Simple_wf s → Simple_wf (Simple_flush collab s).2.
Proof.
  intros [Hnd Hall]. unfold Simple_flush. rewrite flush_items_ok by done.
  split; csimpl.
  - rewrite <-list_fmap_compose.
    by rewrite (list_fmap_ext _ fst (_state s)) by (by intros ? []).
  - apply Forall_fmap, Forall_true. by intros [? ?] [=].
Qed.

(** *** Equations of the in-memory methods *)

(** The setter in one piece: the merged map and the new checkpoint. *)
Lemma Tracker_set_delta_eq value t :
  Tracker_set_delta value t
  = {| _delta := Some {| updates := naive_fetch_merge (tracker_updates t) (updates value);
                         checkpoint := checkpoint value |};
       dirty := true |}.
Proof. unfold Tracker_set_delta, tracker_updates. by destruct (_delta t). Qed.

Lemma Tracker_checkpoint_value t : Tracker_checkpoint t = Ok (known_checkpoint t).
Proof. done. Qed.

Lemma Simple_get_checkpoint_eq collab s :
  Simple_get_checkpoint collab s
  = (Ok (known_checkpoint (tracker_of collab s)), (_get_state collab s).2).
Proof.
  unfold Simple_get_checkpoint, tracker_of, mbind, M_bind.
  destruct (get_state_result collab s) as (t & Hs & _ & ->). by rewrite Hs.
Qed.

Lemma Simple_merge_eq collab delta s :
  Simple_merge collab delta s
  = if is_noop delta (known_checkpoint (tracker_of collab s))
    then (Ok tt, (_get_state collab s).2)
    else Simple_put_state (name collab) (Tracker_set_delta delta (tracker_of collab s))
           (_get_state collab s).2.
Proof.
  unfold Simple_merge, tracker_of, mbind, M_bind.
  destruct (get_state_result collab s) as (t & Hs & _ & ->). rewrite Hs. csimpl.
  unfold lift. csimpl. by destruct (is_noop _ _).
Qed.

Lemma tracker_of_tracked collab s :
  dict_get (name collab) (_state (_get_state collab s).2) = Some (tracker_of collab s).
Proof.
  by destruct (get_state_result collab s) as (t & _ & Hget & <-).
Qed.

Lemma Simple_merge_wf collab delta s :
  Simple_wf s → Simple_wf (Simple_merge collab delta s).2.
Proof.
  intros Hwf. rewrite Simple_merge_eq. destruct (is_noop _ _).
  - by apply get_state_wf.
  - apply put_state_wf; [|by apply get_state_wf].
    intros _. by rewrite Tracker_set_delta_eq.
Qed.

(** The loop of [get_for_signal_type] returns; what it does to the store is
    load the trackers of the collaborations it is given. *)
Lemma Simple_get_loop_eq collabs signal_type ret s :
  Simple_get_for_signal_type_loop collabs signal_type ret s
  = (Ok (collect_records (λ c, Simple_records c signal_type s) collabs ret),
     foldl (λ s collab, (_get_state collab s).2) s collabs).
Proof.
  assert (∀ s0, (∀ c, (_get_state c s0).1 = (_get_state c s).1) →
    Simple_get_for_signal_type_loop collabs signal_type ret s0
    = (Ok (collect_records (λ c, Simple_records c signal_type s) collabs ret),
       foldl (λ s collab, (_get_state collab s).2) s0 collabs)) as Hgen; [|by apply Hgen].
  revert ret. induction collabs as [|c collabs IH]; intros ret s0 Hs0; [done|].
  csimpl. unfold mbind, M_bind.
  assert (tracker_of c s0 = tracker_of c s) as Htr.
  { specialize (Hs0 c).
    destruct (get_state_result c s0) as (t0 & Hr0 & _ & <-).
    destruct (get_state_result c s) as (t & Hr & _ & <-).
    rewrite Hr0, Hr in Hs0. by simplify_eq/=. }
  pose proof (get_state_result c s0) as (t0 & Hr0 & _ & Ht0).
  rewrite Hr0. subst t0. rewrite Htr.
  unfold Simple_records, Tracker_empty, Tracker_delta, lift.
  destruct (_delta (tracker_of c s)) as [d|]; csimpl.
  - apply IH. intros c'. rewrite get_state_stable. apply Hs0.
  - rewrite decide_True by done. apply IH.
    intros c'. rewrite get_state_stable. apply Hs0.
Qed.

Lemma Simple_get_for_signal_type_wf collabs signal_type s :
  Simple_wf s → Simple_wf (Simple_get_for_signal_type collabs signal_type s).2.
Proof.
  unfold Simple_get_for_signal_type. rewrite Simple_get_loop_eq. csimpl.
  revert s. induction collabs as [|c collabs IH]; intros s Hwf; [done|].
  csimpl. by apply IH, get_state_wf.
Qed.

Lemma Simple_do_wf o s : Simple_wf s → Simple_wf (Simple_do o s).
Proof.
  intros Hwf. destruct o; csimpl.
  - rewrite Simple_get_checkpoint_eq. by apply get_state_wf.
  - by apply clear_wf.
  - by apply Simple_merge_wf.
  - by apply flush_wf.
  - by apply Simple_get_for_signal_type_wf.
  - done.
Qed.

Lemma Simple_run_wf calls s : Simple_wf s → Simple_wf (Simple_run calls s).
Proof.
  revert s. induction calls as [|o calls IH]; intros s Hwf; [done|].
  csimpl. by apply IH, Simple_do_wf.
Qed.

Lemma get_states_backing collabs s :
  let s' := foldl (λ s collab, (_get_state collab s).2) s collabs in
  written s' = written s ∧ backing s' = backing s.
Proof.
  revert s. induction collabs as [|c collabs IH]; intros s; [done|]. csimpl.
  destruct (IH (_get_state c s).2) as [-> ->].
  by destruct (get_state_backing c s) as [-> ->].
Qed.

(** Only [flush] reaches the write hook. *)
Lemma Simple_do_no_write o s :
  is_flush o = false →
  written (Simple_do o s) = written s ∧ backing (Simple_do o s) = backing s.
Proof.
  intros Ho. destruct o; try done; csimpl.
  - rewrite Simple_get_checkpoint_eq. csimpl.
    by destruct (get_state_backing collab s) as [-> ->].
  - rewrite Simple_merge_eq.
    destruct (is_noop _ _); csimpl; by destruct (get_state_backing collab s) as [-> ->].
  - unfold Simple_get_for_signal_type. rewrite Simple_get_loop_eq. csimpl.
    apply get_states_backing.
Qed.

(** *** The key-value storage *)

Lemma db_get_set ns key value ns' key' σ :
  db_get ns' key' (db_set ns key value σ)
  = if decide (ns = ns' ∧ key = key') then value else db_get ns' key' σ.
Proof.
  unfold db_get, db_set. csimpl. destruct (decide (ns = ns')) as [->|Hns].
  - rewrite lookup_insert_eq. csimpl. destruct (decide (key = key')) as [->|Hk].
    + rewrite lookup_insert_eq, decide_True; done.
    + rewrite lookup_insert_ne by done. rewrite decide_False by (by intros [_ ?]).
      by destruct (namespaces σ !! ns').
  - rewrite lookup_insert_ne by done. by rewrite decide_False by (by intros [? _]).
Qed.

Lemma db_items_set ns key value ns' σ :
  db_items ns' (db_set ns key value σ)
  = if decide (ns = ns') then <[key := value]> (db_items ns' σ) else db_items ns' σ.
Proof.
  unfold db_items, db_set. csimpl. destruct (decide (ns = ns')) as [->|Hns].
  - by rewrite lookup_insert_eq.
  - by rewrite lookup_insert_ne.
Qed.

Lemma db_get_items ns key σ : db_get ns key σ = default PyNone (db_items ns σ !! key).
Proof. unfold db_get, db_items. by destruct (namespaces σ !! ns). Qed.

(** The loop over the updates writes them, and only them, into its
    namespace. *)
Lemma write_updates_items db items ns σ :
  db_items ns (DBM_write_updates db items σ)
  = if decide (db = ns) then foldl (λ m kv, <[kv.1 := kv.2]> m) (db_items ns σ) items
    else db_items ns σ.
Proof.
  unfold DBM_write_updates. revert σ. induction items as [|[k v] items IH]; intros σ; csimpl.
  - by destruct (decide _).
  - rewrite IH, db_items_set. by destruct (decide (db = ns)).
Qed.


Lemma foldl_insert_map_to_list (m old : gmap string Val) :
  foldl (λ m kv, <[kv.1 := kv.2]> m) old (map_to_list m) = m ∪ old.
Proof.
  revert old. induction m as [|k v m Hk Hfirst IH] using map_first_key_ind; intros old.
  - by rewrite map_to_list_empty, (left_id_L ∅ (∪)).
  - rewrite map_to_list_insert_first_key by done. csimpl.
    rewrite <-insert_union_l, <-IH. clear IH.
    assert (∀ l : list (string * Val), k ∉ l.*1 →
      ∀ acc : gmap string Val,
        foldl (λ m kv, <[kv.1 := kv.2]> m) (<[k := v]> acc) l
        = <[k := v]> (foldl (λ m kv, <[kv.1 := kv.2]> m) acc l)) as Hcomm.
    { induction l as [|[k' v'] l IHl]; csimpl; [done|].
      rewrite not_elem_of_cons. intros [Hne Hnin] acc.
      rewrite <-IHl by done. f_equal. by apply insert_insert_ne. }
    apply Hcomm. intros ((k' & v') & Heq & Hin%elem_of_map_to_list)%list_elem_of_fmap.
    csimpl in *. subst k'. congruence.
Qed.

Lemma write_updates_map db (m : gmap string Val) σ :
  db_items db (DBM_write_updates db (map_to_list m) σ) = m ∪ db_items db σ.
Proof. by rewrite write_updates_items, decide_True, foldl_insert_map_to_list. Qed.

(** *** Namespaces *)

Lemma string_app_length (s1 s2 : string) :
  String.length (s1 +:+ s2) = String.length s1 + String.length s2.
Proof. induction s1 as [|a s1 IH]; csimpl; [done|]. by rewrite IH. Qed.

Lemma string_app_inj_r (s1 s2 t : string) : s1 +:+ t = s2 +:+ t → s1 = s2.
Proof.
  revert s2. induction s1 as [|a s1 IH]; intros [|b s2] Heq; try done.
  - apply (f_equal String.length) in Heq.
    rewrite !string_app_length in Heq. simpl in Heq. lia.
  - apply (f_equal String.length) in Heq.
    rewrite !string_app_length in Heq. simpl in Heq. lia.
  - change (String a (s1 +:+ t) = String b (s2 +:+ t)) in Heq.
    injection Heq as -> Heq. f_equal. by apply IH.
Qed.

(** The data namespace of a collaboration is not its checkpoint namespace. *)
Lemma checkpoint_ns_ne collab : name collab ≠ checkpoint_ns collab.
Proof.
  unfold checkpoint_ns. intros Heq. apply (f_equal String.length) in Heq.
  rewrite string_app_length in Heq. simpl in Heq. lia.
Qed.

Lemma checkpoint_ns_inj collab collab' :
  checkpoint_ns collab = checkpoint_ns collab' → name collab = name collab'.
Proof. apply string_app_inj_r. Qed.

(** *** Equations of the persistent methods *)

Lemma DBM_merge_checkpoint_ns collab delta σ key :
  db_get (checkpoint_ns collab) key (DBM_merge collab delta σ)
  = if is_noop delta (DBM_get_checkpoint collab σ) then db_get (checkpoint_ns collab) key σ
    else if decide (key = "_checkpoint") then checkpoint delta
    else db_get (checkpoint_ns collab) key σ.
Proof.
  unfold DBM_merge, DBM_get_checkpoint. destruct (is_noop _ _); [done|].
  rewrite db_get_set. destruct (decide (key = "_checkpoint")) as [->|Hk].
  - by rewrite decide_True.
  - rewrite decide_False by (intros [_ ?]; done).
    rewrite !db_get_items, write_updates_items.
    by rewrite decide_False by apply checkpoint_ns_ne.
Qed.

Lemma DBM_merge_items collab delta σ :
  db_items (name collab) (DBM_merge collab delta σ)
  = if is_noop delta (DBM_get_checkpoint collab σ) then db_items (name collab) σ
    else updates delta ∪ db_items (name collab) σ.
Proof.
  unfold DBM_merge, DBM_get_checkpoint. destruct (is_noop _ _); [done|].
  rewrite db_items_set, decide_False by (intros ?; by apply (checkpoint_ns_ne collab)).
  apply write_updates_map.
Qed.


Lemma db_items_drop ns ns' σ :
  db_items ns' (db_drop ns σ) = if decide (ns = ns') then ∅ else db_items ns' σ.
Proof.
  unfold db_items, db_drop. csimpl. destruct (decide (ns = ns')) as [->|Hns].
  - by rewrite lookup_delete_eq.
  - by rewrite lookup_delete_ne.
Qed.

(** A call other than [flush] whose data namespace is not the checkpoint
    namespace of [collab] leaves the committed checkpoint of [collab] as it
    is. *)
Lemma DBM_do_committed o collab σ :
  is_flush o = false →
  data_ns_of o ≠ Some (checkpoint_ns collab) →
  DBM_get_checkpoint collab (DBM_do o σ) = DBM_get_checkpoint collab σ.
Proof.
  intros Hfl Hns. destruct o as [c|c|c d|c|cs st|c]; try done; csimpl in *.
  - unfold DBM_get_checkpoint, DBM_clear. rewrite !db_get_items, db_items_drop.
    rewrite decide_False; [done | congruence].
  - unfold DBM_get_checkpoint, DBM_merge. destruct (is_noop _ _); [done|].
    rewrite db_get_set, decide_False by (intros [_ ?]; done).
    rewrite !db_get_items, write_updates_items.
    rewrite decide_False; [done | congruence].
Qed.

Lemma own_call_data_ns o collab :
  (∀ c, call_collab o = Some c → name c = name collab) →
  data_ns_of o ≠ Some (checkpoint_ns collab).
Proof.
  intros Hown. destruct o as [c|c|c d|c|cs st|c]; try done; csimpl in *.
  - intros [= Heq]. rewrite (Hown c) in Heq by done. by apply (checkpoint_ns_ne collab).
  - intros [= Heq]. rewrite (Hown c) in Heq by done. by apply (checkpoint_ns_ne collab).
Qed.


(** The committed checkpoint of a collaboration is out of reach of calls for
    collaborations of another name, one name apart: that of its checkpoint
    namespace, which is the data namespace of a collaboration so named. *)
Theorem DBM_other_collaboration_frame o collab σ :
  (∀ c, call_collab o = Some c → name c ≠ name collab) →
  data_ns_of o ≠ Some (checkpoint_ns collab) →
  DBM_get_checkpoint collab (DBM_do o σ) = DBM_get_checkpoint collab σ.
Proof.
  intros Hother Hns. destruct (is_flush o) eqn:Hfl; [|by apply DBM_do_committed].
  destruct o as [c|c|c d|c|cs st|c]; try done. csimpl.
  unfold DBM_get_checkpoint, DBM_flush. rewrite db_get_set, decide_False; [done|].
  intros [Heq%checkpoint_ns_inj _]. by apply (Hother c).
Qed.

(** *** The claims on the two-phase checkpoint *)


Lemma tracker_of_get_state collab collab' s :
  tracker_of collab (_get_state collab' s).2 = tracker_of collab s.
Proof.
  pose proof (get_state_stable collab collab' s) as Hst.
  destruct (get_state_result collab (_get_state collab' s).2) as (t1 & Hr1 & _ & <-).
  destruct (get_state_result collab s) as (t2 & Hr2 & _ & <-).
  rewrite Hr1, Hr2 in Hst. by simplify_eq/=.
Qed.

(** C3. A merge of a delta with no updates whose checkpoint is absent or is
    the checkpoint [C] that [get_checkpoint] currently returns does nothing,
    in both stores.  In memory it returns, its only effect on the store is
    that of [_get_state] (the tracker of a collaboration not seen before is
    loaded, clean), so the delta, checkpoint and dirty flag of every tracker
    are as before and the write hook is not called; a store that already
    tracks the collaboration is left as it was.  The persistent storage is
    left as it was, its journal included. *)
Theorem noop_merge_changes_nothing collab delta C :
  updates delta = ∅ →
  checkpoint delta = PyNone ∨ checkpoint delta = C →
  (∀ s, (Simple_get_checkpoint collab s).1 = Ok C →
     let s' := (Simple_merge collab delta s).2 in
     (Simple_merge collab delta s).1 = Ok tt
     ∧ s' = (_get_state collab s).2
     ∧ (∀ c, tracker_of c s' = tracker_of c s)
     ∧ (Simple_get_checkpoint collab s').1 = Ok C
     ∧ written s' = written s
     ∧ backing s' = backing s
     ∧ (is_Some (dict_get (name collab) (_state s)) → s' = s))
  ∧ (∀ σ, DBM_get_checkpoint collab σ = C → DBM_merge collab delta σ = σ).
Proof.
  intros Hupd Hcp.
  assert (∀ known, known = C → is_noop delta known = true) as Hnoop.
  { intros known ->. unfold is_noop. rewrite bool_decide_eq_true_2 by done. csimpl.
    destruct Hcp as [Hcp|Hcp].
    - by rewrite (bool_decide_eq_true_2 _ Hcp).
    - rewrite (bool_decide_eq_true_2 (checkpoint delta = C)) by done.
      by destruct (bool_decide _). }
  split.
  - intros s. rewrite Simple_get_checkpoint_eq. csimpl. intros [= HC].
    rewrite Simple_merge_eq, (Hnoop _ HC). csimpl. split_and!; try done.
    + intros c. apply tracker_of_get_state.
    + rewrite Simple_get_checkpoint_eq. csimpl. by rewrite tracker_of_get_state, HC.
    + apply get_state_backing.
    + apply get_state_backing.
    + intros [t Ht]. by rewrite (get_state_tracked _ _ _ Ht).
  - intros σ HC. unfold DBM_merge. fold (DBM_get_checkpoint collab σ).
    by rewrite (Hnoop _ HC).
Qed.

(** *** The claims on [flush] *)

Lemma pending_elem n d items :
  (n, d) ∈ pending items ↔ ∃ t, (n, t) ∈ items ∧ dirty t = true ∧ _delta t = Some d.
Proof.
  unfold pending. rewrite list_elem_of_omap. split.
  - intros ([n' t] & Hin & Hsome). csimpl in *. exists t.
    destruct (dirty t); [|done]. destruct (_delta t); simplify_eq/=. done.
  - intros (t & Hin & Hd & Hdelta). exists (n, t). csimpl. by rewrite Hd, Hdelta.
Qed.

(** C4, as the code has it.  In memory, [flush] calls the write hook for
    dirty trackers only, and on a store with no dirty tracker it returns and
    leaves the store, its backing store and the record of writes as they
    were.  The persistent [flush] always performs one [set], of the committed
    key to the value of the staged key; every other key of every namespace
    keeps its value; the contents of the storage are unchanged when the
    staged and the committed key already hold the same value, and a second
    [flush] in a row never changes them. *)
Theorem flush_of_clean_collab collab :
  (∀ s, Forall (λ kt, dirty kt.2 = false) (_state s) → Simple_flush collab s = (Ok tt, s))
  ∧ (∀ s, ∃ ws, written (Simple_flush collab s).2 = written s ++ ws
       ∧ ∀ n d, (n, d) ∈ ws → ∃ t, (n, t) ∈ _state s ∧ dirty t = true ∧ _delta t = Some d)
  ∧ (∀ σ, journal (DBM_flush collab σ)
          = journal σ ++ [WSet (checkpoint_ns collab) "checkpoint"
                            (db_get (checkpoint_ns collab) "_checkpoint" σ)])
  ∧ (∀ σ ns key, (ns, key) ≠ (checkpoint_ns collab, "checkpoint") →
       namespaces (DBM_flush collab σ) !! ns ≫= (.!! key) = namespaces σ !! ns ≫= (.!! key))
  ∧ (∀ σ value,
       namespaces σ !! checkpoint_ns collab ≫= (.!! "_checkpoint") = Some value →
       namespaces σ !! checkpoint_ns collab ≫= (.!! "checkpoint") = Some value →
       namespaces (DBM_flush collab σ) = namespaces σ)
  ∧ (∀ σ, namespaces (DBM_flush collab (DBM_flush collab σ))
          = namespaces (DBM_flush collab σ)).
Proof.
  split_and!.
  - intros [items b w] Hclean. unfold Simple_flush. csimpl in *.
    rewrite flush_items_ok by (eapply Forall_impl; [exact Hclean|]; by intros ? ->).
    assert (pending items = []) as ->.
    { unfold pending. induction Hclean as [|[n t] items Ht Hclean IH]; csimpl in *; [done|].
      by rewrite Ht. }
    rewrite app_nil_r. csimpl. do 3 f_equal.
    induction Hclean as [|[n [d dr]] items Ht Hclean IH]; csimpl in *; [done|].
    rewrite IH. by subst dr.
  - intros s. unfold Simple_flush.
    destruct (flush_items_shape (_state s) (backing s) (written s))
      as (ws & Hw & _ & _ & Hsub & _).
    destruct (flush_items _ _ _) as [r [[items' b'] w']]. csimpl in *.
    exists ws. split; [done|]. intros n d Hin. apply pending_elem.
    by eapply elem_of_sublist.
  - done.
  - intros σ ns key Hne. unfold DBM_flush, db_set. csimpl.
    destruct (decide (checkpoint_ns collab = ns)) as [<-|Hns].
    + rewrite lookup_insert_eq. csimpl. rewrite lookup_insert_ne by congruence.
      by destruct (namespaces σ !! checkpoint_ns collab).
    + by rewrite lookup_insert_ne.
  - intros σ value Hst Hco. unfold DBM_flush, db_set, db_get. csimpl. rewrite Hst. csimpl.
    destruct (namespaces σ !! checkpoint_ns collab) as [m|] eqn:Hm; [|done]. csimpl in *.
    by rewrite (insert_id m), insert_id.
  - intros σ. unfold DBM_flush. rewrite db_get_set, decide_False by (intros [_ ?]; done).
    unfold db_set. csimpl. rewrite lookup_insert_eq. csimpl.
    by rewrite !insert_insert_eq.
Qed.

Lemma pending_keys_sublist items : (pending items).*1 `sublist_of` items.*1.
Proof.
  induction items as [|[n [[d|] [|]]] items IH]; csimpl; try done.
  - by apply sublist_skip.
  - by apply sublist_cons.
  - by apply sublist_cons.
  - by apply sublist_cons.
Qed.

Lemma pending_keys n items :
  NoDup items.*1 →
  Forall (λ kt : string * _StateTracker, dirty kt.2 = true → is_Some (_delta kt.2)) items →
  n ∈ (pending items).*1 ↔ ∃ t, dict_get n items = Some t ∧ dirty t = true.
Proof.
  intros Hnd Hall. rewrite list_elem_of_fmap. split.
  - intros ([n' d] & -> & (t & Hin & Hd & _)%pending_elem). exists t.
    split; [|done]. by apply dict_elem_get.
  - intros (t & Hget%dict_get_Some_elem & Hd).
    rewrite Forall_forall in Hall. destruct (Hall _ Hget Hd) as [d Hdelta].
    exists (n, d). split; [done|]. apply pending_elem. by exists t.
Qed.

(** C7. On a store reached from a new one by calls of its methods, one
    [flush] returns, whatever collaboration it is called for; the tracker dict
    holds each collaboration once and the loop goes over it entry by entry;
    the write hook is called, in dict order, with the delta of each dirty
    tracker and of no other, once per such tracker; afterwards every tracker
    is clean and holds the delta it held.  No other call reaches the write
    hook, on any store. *)
Theorem flush_writes_each_dirty_tracker_once b calls collab :
  let s := Simple_run calls (Simple_init b) in
  let s' := (Simple_flush collab s).2 in
  (Simple_flush collab s).1 = Ok tt
  ∧ NoDup (_state s).*1
  ∧ written s' = written s ++ pending (_state s)
  ∧ backing s' = foldl (λ b nd, _write_state nd.1 nd.2 b) (backing s) (pending (_state s))
  ∧ NoDup (pending (_state s)).*1
  ∧ (∀ n, n ∈ (pending (_state s)).*1 ↔ ∃ t, dict_get n (_state s) = Some t ∧ dirty t = true)
  ∧ (∀ n d, (n, d) ∈ pending (_state s) →
       ∃ t, dict_get n (_state s) = Some t ∧ Tracker_delta t = Ok d)
  ∧ _state s' = prod_map id mark_clean <$> _state s
  ∧ (∀ collab', Simple_flush collab' s = Simple_flush collab s)
  ∧ (∀ o s0, is_flush o = false →
       written (Simple_do o s0) = written s0 ∧ backing (Simple_do o s0) = backing s0).
Proof.
  intros s s'.
  assert (Simple_wf s) as [Hnd Hall] by apply Simple_run_wf, Simple_wf_init.
  subst s'. unfold Simple_flush. rewrite flush_items_ok by done. csimpl.
  split_and!; try done.
  - exact (sublist_NoDup _ _ Hnd (pending_keys_sublist _)).
  - intros n. by apply pending_keys.
  - intros n d (t & Hin & _ & Hdelta)%pending_elem. exists t.
    split; [by apply dict_elem_get|]. unfold Tracker_delta. by rewrite Hdelta.
  - apply Simple_do_no_write.
Qed.

(** C10. In a store reached from a new one by calls of its methods a dirty
    tracker holds a delta, so the assertion in [flush] holds and [flush]
    returns. *)
Theorem dirty_tracker_has_delta b calls :
  let s := Simple_run calls (Simple_init b) in
  (∀ n t, (n, t) ∈ _state s → dirty t = true →
     Tracker_empty t = false ∧ ∃ d, Tracker_delta t = Ok d)
  ∧ (∀ collab, (Simple_flush collab s).1 = Ok tt).
Proof.
  intros s.
  assert (Simple_wf s) as [Hnd Hall] by apply Simple_run_wf, Simple_wf_init.
  split.
  - intros n t Hin Hd. rewrite Forall_forall in Hall.
    destruct (Hall _ Hin Hd) as [d Hdelta]. csimpl in Hdelta.
    unfold Tracker_empty, Tracker_delta. rewrite Hdelta. eauto.
  - intros collab. unfold Simple_flush. by rewrite flush_items_ok.
Qed.

(** *** The tracker's accessors *)

(** C8, as the code has it.  On an empty tracker the [delta] getter fails
    its assertion; the [checkpoint] getter does not fail and returns
    [None]. *)
Theorem empty_tracker_access t :
  Tracker_empty t = true →
  Tracker_delta t = Raise AssertionError ∧ Tracker_checkpoint t = Ok PyNone.
Proof.
  unfold Tracker_empty, Tracker_delta, Tracker_checkpoint. by destruct (_delta t).
Qed.

(** *** [clear] *)

(** C6, as the code has it.  In memory, [clear] on a store reached from a new
    one drops the tracker of the collaboration, with whatever it held that
    was not flushed, and nothing else: the other trackers, the backing store
    and the record of writes stay, and the next access loads the tracker again
    from [_read_state].  The persistent [clear] drops the data namespace, so
    [exists] is false, and nothing else: every other namespace stays, the
    staged and the committed checkpoint among them. *)
Theorem clear_drops_tracker_and_data_namespace collab :
  (∀ b calls,
     let s := Simple_run calls (Simple_init b) in
     let s' := (Simple_clear collab s).2 in
     (Simple_clear collab s).1 = Ok tt
     ∧ dict_get (name collab) (_state s') = None
     ∧ (∀ n, n ≠ name collab → dict_get n (_state s') = dict_get n (_state s))
     ∧ backing s' = backing s
     ∧ written s' = written s
     ∧ tracker_of collab s' = Tracker_new (_read_state (backing s) (name collab)))
  ∧ (∀ σ,
     let σ' := DBM_clear collab σ in
     namespaces σ' !! name collab = None
     ∧ DBM_exists collab σ' = false
     ∧ (∀ ns, ns ≠ name collab → namespaces σ' !! ns = namespaces σ !! ns)
     ∧ DBM_get_checkpoint collab σ' = DBM_get_checkpoint collab σ
     ∧ db_get (checkpoint_ns collab) "_checkpoint" σ'
       = db_get (checkpoint_ns collab) "_checkpoint" σ
     ∧ journal σ' = journal σ ++ [WDrop (name collab)]).
Proof.
  split.
  - intros b calls s s'.
    assert (Simple_wf s) as [Hnd Hall] by apply Simple_run_wf, Simple_wf_init.
    assert (dict_get (name collab) (_state s') = None) as Hnone
      by by apply dict_get_pop_eq.
    split_and!; try done.
    + intros n Hne. by apply dict_get_pop_ne.
    + unfold tracker_of. by rewrite Hnone.
  - intros σ σ'. subst σ'. unfold DBM_clear, DBM_exists, DBM_get_checkpoint.
    split_and!; try done.
    + apply lookup_delete_eq.
    + unfold db_exists, db_drop. csimpl. rewrite lookup_delete_eq.
      apply bool_decide_eq_false_2. by intros [? ?].
    + intros ns Hne. by apply lookup_delete_ne.
    + rewrite !db_get_items, db_items_drop.
      by rewrite decide_False by apply checkpoint_ns_ne.
    + rewrite !db_get_items, db_items_drop.
      by rewrite decide_False by apply checkpoint_ns_ne.
Qed.

(** *** [get_for_signal_type] *)

Lemma Simple_get_for_signal_type_eq collabs signal_type s :
  (Simple_get_for_signal_type collabs signal_type s).1
  = Ok (collect_records (λ c, Simple_records c signal_type s) collabs ∅).
Proof. unfold Simple_get_for_signal_type. by rewrite Simple_get_loop_eq. Qed.

Lemma DBM_get_for_signal_type_eq collabs signal_type σ :
  DBM_get_for_signal_type collabs signal_type σ
  = collect_records (λ c, DBM_records c signal_type σ) collabs ∅.
Proof.
  unfold DBM_get_for_signal_type, collect_records. generalize (∅ : gmap string (gmap string Meta)).
  induction collabs as [|c collabs IH]; intros ret; [done|]. csimpl. by rewrite IH.
Qed.

(** An entry of the dict that the loop builds was there before or is the
    non-empty contribution of a collaboration of that name. *)
Lemma collect_records_lookup records collabs ret n m :
  collect_records records collabs ret !! n = Some m →
  ret !! n = Some m ∨ (m ≠ ∅ ∧ ∃ c, c ∈ collabs ∧ name c = n ∧ m = records c).
Proof.
  unfold collect_records. revert ret.
  induction collabs as [|c collabs IH]; intros ret Hm; csimpl in *; [auto|].
  apply IH in Hm as [Hm | (Hne & c' & Hin & Hn & ->)].
  - destruct (decide (records c = ∅)) as [|Hne]; [auto|].
    destruct (decide (name c = n)) as [<-|Hn].
    + rewrite lookup_insert_eq in Hm. simplify_eq. right. split; [done|].
      exists c. split_and!; [apply elem_of_cons|..]; auto.
    + rewrite lookup_insert_ne in Hm by done. auto.
  - right. split; [done|]. exists c'. split_and!; [apply elem_of_cons|..]; auto.
Qed.

(** C9. In both stores, the mapping that [get_for_signal_type] returns has no
    entry under the name of a collaboration that contributes no record of the
    signal type, and every entry it has is the non-empty contribution of a
    collaboration of the list.  The in-memory method returns (it does not
    raise). *)
Theorem get_for_signal_type_omits_empty collabs signal_type :
  (∀ s, ∃ ret,
     (Simple_get_for_signal_type collabs signal_type s).1 = Ok ret
     ∧ (∀ n, (∀ c, c ∈ collabs → name c = n → Simple_records c signal_type s = ∅) →
          ret !! n = None)
     ∧ (∀ n m, ret !! n = Some m →
          m ≠ ∅ ∧ ∃ c, c ∈ collabs ∧ name c = n ∧ m = Simple_records c signal_type s))
  ∧ (∀ σ,
     let ret := DBM_get_for_signal_type collabs signal_type σ in
     (∀ n, (∀ c, c ∈ collabs → name c = n → DBM_records c signal_type σ = ∅) →
        ret !! n = None)
     ∧ (∀ n m, ret !! n = Some m →
          m ≠ ∅ ∧ ∃ c, c ∈ collabs ∧ name c = n ∧ m = DBM_records c signal_type σ)).
Proof.
  assert (∀ records : Collab → gmap string Meta,
    let ret := collect_records records collabs ∅ in
    (∀ n, (∀ c, c ∈ collabs → name c = n → records c = ∅) → ret !! n = None)
    ∧ (∀ n m, ret !! n = Some m →
         m ≠ ∅ ∧ ∃ c, c ∈ collabs ∧ name c = n ∧ m = records c)) as Hgen.
  { intros records ret.
    assert (∀ n m, ret !! n = Some m →
         m ≠ ∅ ∧ ∃ c, c ∈ collabs ∧ name c = n ∧ m = records c) as Hentry.
    { intros n m [Hm|Hm]%collect_records_lookup; [|done].
      by rewrite lookup_empty in Hm. }
    split; [|done]. intros n Hnone.
    destruct (ret !! n) as [m|] eqn:Hm; [|done].
    destruct (Hentry n m Hm) as (Hne & c & Hin & Hn & ->).
    by rewrite (Hnone c Hin Hn) in Hne. }
  split.
  - intros s. eexists. split; [apply Simple_get_for_signal_type_eq|]. apply Hgen.
  - intros σ ret. subst ret. rewrite DBM_get_for_signal_type_eq. apply Hgen.
Qed.

(** *** Accumulation of merges in the in-memory store *)

Lemma tracker_of_put_state collab state s :
  tracker_of collab (Simple_put_state (name collab) state s).2 = state.
Proof. unfold tracker_of. csimpl. by rewrite dict_get_set_eq. Qed.

(** What one [merge] does to the tracker of its collaboration. *)
Lemma Simple_merge_tracker collab delta s :
  tracker_of collab (Simple_merge collab delta s).2
  = merge_step (tracker_of collab s) delta.
Proof.
  rewrite Simple_merge_eq. unfold merge_step. destruct (is_noop _ _).
  - apply tracker_of_get_state.
  - apply tracker_of_put_state.
Qed.

Lemma Simple_run_merges_tracker collab deltas s :
  tracker_of collab (Simple_run (Merge collab <$> deltas) s)
  = foldl merge_step (tracker_of collab s) deltas.
Proof.
  revert s. induction deltas as [|d deltas IH]; intros s; [done|].
  csimpl. by rewrite IH, Simple_merge_tracker.
Qed.

(** [merge] returns. *)
Lemma Simple_merge_ok collab delta s : (Simple_merge collab delta s).1 = Ok tt.
Proof. rewrite Simple_merge_eq. by destruct (is_noop _ _). Qed.

Lemma List_last_cons {A} (a : A) l d : List.last (a :: l) d = List.last l a.
Proof.
  revert a d. induction l as [|b l IH]; intros a d; [done|].
  change (List.last (b :: l) d = List.last (b :: l) a). by rewrite !IH.
Qed.

(** The tracker after a run of merges, by the deltas that passed the test. *)
Lemma merge_steps_applied t deltas :
  foldl merge_step t deltas
  = match applied (known_checkpoint t) deltas with
    | [] => t
    | d :: rest =>
        {| _delta := Some {| updates := foldl naive_fetch_merge (tracker_updates t)
                                          (updates <$> d :: rest);
                             checkpoint := checkpoint (List.last rest d) |};
           dirty := true |}
    end.
Proof.
  revert t. induction deltas as [|d deltas IH]; intros t; [done|]. csimpl.
  rewrite IH. unfold merge_step at 1 2 3.
  destruct (is_noop d (known_checkpoint t)); [done|].
  rewrite Tracker_set_delta_eq. unfold known_checkpoint at 1, tracker_updates at 1. csimpl.
  destruct (applied (checkpoint d) deltas) as [|d' rest] eqn:Happ; [done|].
  unfold tracker_updates. csimpl. by rewrite <-(List_last_cons d' rest d).
Qed.

Lemma applied_sublist known deltas : applied known deltas `sublist_of` deltas.
Proof.
  revert known. induction deltas as [|d deltas IH]; intros known; csimpl; [done|].
  destruct (is_noop d known); [apply sublist_cons | apply sublist_skip]; apply IH.
Qed.

Lemma applied_nonempty_updates known deltas :
  filter (λ d, updates d ≠ ∅) deltas `sublist_of` applied known deltas.
Proof.
  revert known. induction deltas as [|d deltas IH]; intros known; csimpl; [done|].
  unfold is_noop. rewrite filter_cons. destruct (decide (updates d ≠ ∅)) as [Hne|He].
  - rewrite bool_decide_eq_false_2 by done. csimpl. apply sublist_skip, IH.
  - destruct (_ && _); [apply IH | apply sublist_cons, IH].
Qed.

Lemma applied_all known deltas :
  Forall (λ d, updates d ≠ ∅) deltas → applied known deltas = deltas.
Proof.
  intros Hall. revert known. induction Hall as [|d deltas Hd Hall IH]; intros known; [done|].
  csimpl. unfold is_noop. rewrite bool_decide_eq_false_2 by done. csimpl. by rewrite IH.
Qed.

(** Skipped deltas carry no updates: where merging an empty map changes
    nothing, they can be folded in all the same. *)
Lemma applied_fold known deltas acc :
  (∀ m, naive_fetch_merge m ∅ = m) →
  foldl naive_fetch_merge acc (updates <$> applied known deltas)
  = foldl naive_fetch_merge acc (updates <$> deltas).
Proof.
  intros Hneutral. revert known acc.
  induction deltas as [|d deltas IH]; intros known acc; [done|]. csimpl.
  destruct (is_noop d known) eqn:Hnoop; csimpl; [|apply IH].
  unfold is_noop in Hnoop. apply andb_prop in Hnoop as [Hupd%bool_decide_eq_true _].
  by rewrite Hupd, Hneutral.
Qed.

(** The checkpoint a tracker knows after a run of merges is the last delta's
    when that delta has updates or has a checkpoint. *)
Lemma merge_steps_last_checkpoint t deltas d :
  updates d ≠ ∅ ∨ checkpoint d ≠ PyNone →
  known_checkpoint (foldl merge_step t (deltas ++ [d])) = checkpoint d.
Proof.
  intros Hd. rewrite foldl_app. csimpl. generalize (foldl merge_step t deltas). intros t'.
  unfold merge_step, is_noop. destruct (decide (updates d = ∅)) as [Hupd|Hupd].
  - rewrite (bool_decide_eq_true_2 _ Hupd). csimpl.
    destruct Hd as [?|Hcp]; [done|]. rewrite (bool_decide_eq_false_2 _ Hcp). csimpl.
    destruct (decide (checkpoint d = known_checkpoint t')) as [Heq|Hne].
    + by rewrite (bool_decide_eq_true_2 _ Heq).
    + rewrite (bool_decide_eq_false_2 _ Hne). by rewrite Tracker_set_delta_eq.
  - rewrite (bool_decide_eq_false_2 _ Hupd). csimpl. by rewrite Tracker_set_delta_eq.
Qed.

(** C2, as the code has it.  For a collaboration whose tracker is empty, after
    [merge] of D1..Dn in order: the tracker is still empty if every delta was
    a no-op; otherwise its update map is the left-to-right fold by
    [naive_fetch_merge], from the empty map, of the update maps of the deltas
    that passed the no-op test, and its checkpoint is that of the last such
    delta.  A delta with updates always passes, so with no empty delta this
    is the fold of all of D1..Dn and Dn's checkpoint; the fold over the
    deltas that passed is the fold over all of them when merging an empty map
    changes nothing; and the checkpoint is Dn's whenever Dn has updates or
    has a checkpoint. *)
Theorem merges_accumulate collab deltas s :
  Tracker_empty (tracker_of collab s) = true →
  let s' := Simple_run (Merge collab <$> deltas) s in
  let passed := applied PyNone deltas in
  _delta (tracker_of collab s')
    = match passed with
      | [] => None
      | d :: rest =>
          Some {| updates := foldl naive_fetch_merge ∅ (updates <$> passed);
                  checkpoint := checkpoint (List.last rest d) |}
      end
  ∧ passed `sublist_of` deltas
  ∧ filter (λ d, updates d ≠ ∅) deltas `sublist_of` passed
  ∧ (Forall (λ d, updates d ≠ ∅) deltas →
       ∀ d, last deltas = Some d →
       _delta (tracker_of collab s')
       = Some {| updates := foldl naive_fetch_merge ∅ (updates <$> deltas);
                 checkpoint := checkpoint d |})
  ∧ ((∀ m, naive_fetch_merge m ∅ = m) →
       foldl naive_fetch_merge ∅ (updates <$> passed)
       = foldl naive_fetch_merge ∅ (updates <$> deltas))
  ∧ (∀ d, last deltas = Some d → updates d ≠ ∅ ∨ checkpoint d ≠ PyNone →
       (Simple_get_checkpoint collab s').1 = Ok (checkpoint d)).
Proof.
  intros Hempty s' passed.
  assert (_delta (tracker_of collab s) = None) as Hnone.
  { unfold Tracker_empty in Hempty. by destruct (_delta _). }
  assert (known_checkpoint (tracker_of collab s) = PyNone) as Hknown
    by (unfold known_checkpoint; by rewrite Hnone).
  assert (tracker_updates (tracker_of collab s) = ∅) as Hupd
    by (unfold tracker_updates; by rewrite Hnone).
  assert (_delta (tracker_of collab s')
    = match passed with
      | [] => None
      | d :: rest =>
          Some {| updates := foldl naive_fetch_merge ∅ (updates <$> passed);
                  checkpoint := checkpoint (List.last rest d) |}
      end) as Hdelta.
  { subst s' passed. rewrite Simple_run_merges_tracker, merge_steps_applied, Hknown, Hupd.
    by destruct (applied PyNone deltas). }
  split_and!.
  - exact Hdelta.
  - apply applied_sublist.
  - apply applied_nonempty_updates.
  - intros Hall d Hlast. rewrite Hdelta. subst passed. rewrite applied_all by done.
    destruct deltas as [|d0 rest]; [done|]. do 2 f_equal.
    rewrite <-(List_last_cons d0 rest d0).
    apply last_Some in Hlast as [deltas' ->]. by rewrite List.last_last.
  - intros Hneutral. by apply applied_fold.
  - intros d Hlast Hd. rewrite Simple_get_checkpoint_eq. csimpl. f_equal.
    subst s'. rewrite Simple_run_merges_tracker.
    apply last_Some in Hlast as [deltas' ->]. by apply merge_steps_last_checkpoint.
Qed.

(** *** The two stores side by side *)

(** [flush] keeps the delta of every tracker, whether or not it raises. *)
Lemma flush_items_get items b w n :
  match dict_get n items with
  | None => dict_get n (flush_items items b w).2.1.1 = None
  | Some t => ∃ t', dict_get n (flush_items items b w).2.1.1 = Some t'
                    ∧ _delta t' = _delta t
  end.
Proof.
  revert b w. induction items as [|[n' t] items IH]; intros b w; csimpl; [done|].
  destruct t as [[d|] [|]]; csimpl.
  - specialize (IH (_write_state n' d b) (w ++ [(n', d)])).
    destruct (flush_items items _ _) as [r [[items' b'] w']]. csimpl in *.
    destruct (decide (n' = n)); [eauto | done].
  - specialize (IH b w).
    destruct (flush_items items _ _) as [r [[items' b'] w']]. csimpl in *.
    destruct (decide (n' = n)); [eauto | done].
  - destruct (decide (n' = n)); [eauto|].
    destruct (dict_get n items); eauto.
  - specialize (IH b w).
    destruct (flush_items items _ _) as [r [[items' b'] w']]. csimpl in *.
    destruct (decide (n' = n)); [eauto | done].
Qed.

Lemma flush_tracked collab collab' s :
  is_Some (dict_get (name collab) (_state s)) →
  is_Some (dict_get (name collab) (_state (Simple_flush collab' s).2))
  ∧ _delta (tracker_of collab (Simple_flush collab' s).2) = _delta (tracker_of collab s).
Proof.
  intros [t Ht]. unfold tracker_of, Simple_flush.
  pose proof (flush_items_get (_state s) (backing s) (written s) (name collab)) as Hget.
  destruct (flush_items _ _ _) as [r [[items' b'] w']]. csimpl in *.
  rewrite Ht in *. destruct Hget as (t' & -> & Hdelta). by split; [eexists|].
Qed.

Lemma merge_tracked collab delta s :
  is_Some (dict_get (name collab) (_state (Simple_merge collab delta s).2)).
Proof.
  rewrite Simple_merge_eq. destruct (is_noop _ _); csimpl.
  - rewrite tracker_of_tracked. by eexists.
  - rewrite dict_get_set_eq. by eexists.
Qed.


Lemma is_noop_updates delta known : is_noop delta known = true → updates delta = ∅.
Proof. unfold is_noop. by intros [?%bool_decide_eq_true _]%andb_prop. Qed.







(** ** Further properties of the in-memory store *)

(** A dict of clean trackers is left as it is by the loop of [flush]. *)
Lemma flush_items_clean items b w :
  Forall (λ kt : string * _StateTracker, dirty kt.2 = false) items →
  flush_items items b w = (Ok tt, (items, b, w)).
Proof.
  intros Hclean. induction Hclean as [|[n t] items Ht Hclean IH]; [done|].
  csimpl in *. by rewrite Ht, IH.
Qed.

Lemma mark_clean_all_clean (items : list (string * _StateTracker)) :
  Forall (λ kt : string * _StateTracker, dirty kt.2 = false) (prod_map id mark_clean <$> items).
Proof. apply Forall_fmap, Forall_true. by intros []. Qed.

Lemma dict_get_fmap {V W} (f : V → W) k (d : list (string * V)) :
  dict_get k (prod_map id f <$> d) = f <$> dict_get k d.
Proof.
  induction d as [|[k' v] d IH]; csimpl; [done|].
  destruct (decide (k' = k)); [done | apply IH].
Qed.

(** What [flush] does to a well-formed store, in one piece. *)
Lemma Simple_flush_wf_eq collab s :
  Simple_wf s →
  Simple_flush collab s
  = (Ok tt,
     {| _state := prod_map id mark_clean <$> _state s;
        backing := foldl (λ b nd, _write_state nd.1 nd.2 b) (backing s) (pending (_state s));
        written := written s ++ pending (_state s) |}).
Proof. intros [_ Hall]. unfold Simple_flush. by rewrite flush_items_ok. Qed.

Lemma Simple_merge_no_write collab delta s :
  written (Simple_merge collab delta s).2 = written s
  ∧ backing (Simple_merge collab delta s).2 = backing s.
Proof.
  rewrite Simple_merge_eq.
  destruct (is_noop _ _); csimpl; by destruct (get_state_backing collab s) as [-> ->].
Qed.

(** In memory a merged checkpoint is reported at once: after a [merge] that
    is not a no-op, [get_checkpoint] returns the delta's checkpoint with no
    [flush] in between, the tracker is dirty and holds the merged update map,
    nothing has reached the write hook, and a later [flush] does not change
    what [get_checkpoint] returns. *)
Theorem Simple_merge_checkpoint_at_once collab delta s :
  is_noop delta (known_checkpoint (tracker_of collab s)) = false →
  let s' := (Simple_merge collab delta s).2 in
  (Simple_get_checkpoint collab s').1 = Ok (checkpoint delta)
  ∧ dirty (tracker_of collab s') = true
  ∧ tracker_updates (tracker_of collab s')
    = naive_fetch_merge (tracker_updates (tracker_of collab s)) (updates delta)
  ∧ written s' = written s
  ∧ backing s' = backing s
  ∧ (∀ c, (Simple_get_checkpoint collab (Simple_flush c s').2).1 = Ok (checkpoint delta)).
Proof.
  intros Hnoop s'.
  assert (tracker_of collab s' = Tracker_set_delta delta (tracker_of collab s)) as Htr.
  { subst s'. rewrite Simple_merge_tracker. unfold merge_step. by rewrite Hnoop. }
  rewrite Tracker_set_delta_eq in Htr.
  split_and!.
  - rewrite Simple_get_checkpoint_eq. csimpl. by rewrite Htr.
  - by rewrite Htr.
  - by rewrite Htr.
  - apply Simple_merge_no_write.
  - apply Simple_merge_no_write.
  - intros c. rewrite Simple_get_checkpoint_eq. csimpl. f_equal. unfold known_checkpoint.
    destruct (flush_tracked collab c s' (merge_tracked collab delta s)) as [_ ->].
    by rewrite Htr.
Qed.

(** A second [flush] in a row does nothing: on a store reached from a new one
    and then flushed, another [flush] returns and leaves the store, the
    backing store and the record of writes as they are; and the first [flush]
    kept what [get_checkpoint] returns for every tracked collaboration. *)
Theorem Simple_flush_idempotent b calls collab collab' :
  let s := Simple_run calls (Simple_init b) in
  let s1 := (Simple_flush collab s).2 in
  Simple_flush collab' s1 = (Ok tt, s1)
  ∧ (∀ c, is_Some (dict_get (name c) (_state s)) →
       (Simple_get_checkpoint c s1).1 = (Simple_get_checkpoint c s).1).
Proof.
  intros s s1.
  assert (Simple_wf s) as Hwf by apply Simple_run_wf, Simple_wf_init.
  split.
  - subst s1. rewrite (Simple_flush_wf_eq collab s Hwf). csimpl.
    unfold Simple_flush. csimpl. by rewrite flush_items_clean by apply mark_clean_all_clean.
  - intros c Htr. rewrite !Simple_get_checkpoint_eq. csimpl. f_equal. unfold known_checkpoint.
    subst s1. by destruct (flush_tracked c collab s Htr) as [_ ->].
Qed.

(** [merge] then [flush]: on a store reached from a new one, after a merge
    that is not a no-op the next [flush] hands the write hook, under the
    collaboration's name, the merged delta (the merged update map with the
    delta's checkpoint), once, and leaves the tracker clean with that delta. *)
Theorem Simple_merge_then_flush b calls collab delta collab' :
  let s := Simple_run calls (Simple_init b) in
  is_noop delta (known_checkpoint (tracker_of collab s)) = false →
  let merged := {| updates := naive_fetch_merge (tracker_updates (tracker_of collab s))
                                (updates delta);
                   checkpoint := checkpoint delta |} in
  let s2 := (Simple_flush collab' (Simple_merge collab delta s).2).2 in
  ∃ ws, written s2 = written s ++ ws
    ∧ NoDup ws.*1
    ∧ (∀ d, (name collab, d) ∈ ws ↔ d = merged)
    ∧ tracker_of collab s2 = {| _delta := Some merged; dirty := false |}.
Proof.
  intros s Hnoop merged s2. set (s1 := (Simple_merge collab delta s).2).
  assert (Simple_wf s) as Hwf by apply Simple_run_wf, Simple_wf_init.
  assert (Simple_wf s1) as Hwf1 by by apply Simple_merge_wf.
  assert (dict_get (name collab) (_state s1) = Some {| _delta := Some merged; dirty := true |})
    as Hget.
  { subst s1. rewrite Simple_merge_eq, Hnoop. csimpl.
    by rewrite dict_get_set_eq, Tracker_set_delta_eq. }
  assert (written s1 = written s) as Hw by apply Simple_merge_no_write.
  subst s2. fold s1. rewrite (Simple_flush_wf_eq collab' s1 Hwf1). csimpl.
  exists (pending (_state s1)). destruct Hwf1 as [Hnd Hall]. split_and!.
  - by rewrite Hw.
  - exact (sublist_NoDup _ _ Hnd (pending_keys_sublist _)).
  - intros d. rewrite pending_elem. split.
    + intros (t & Hin & _ & Hd). apply (dict_elem_get _ _ _ Hnd) in Hin.
      rewrite Hget in Hin. simplify_eq/=. done.
    + intros ->. eexists. split; [by apply dict_get_Some_elem|]. done.
  - unfold tracker_of. csimpl. by rewrite dict_get_fmap, Hget.
Qed.

(** The reading methods only load trackers: [get_checkpoint] and
    [get_for_signal_type] leave the tracker of every collaboration, the
    backing store and the record of writes as they are, so a
    [get_for_signal_type] gives the same mapping when asked again, also after
    a [get_checkpoint]. *)
Theorem Simple_reads_change_nothing collabs signal_type collab s :
  let s1 := (Simple_get_for_signal_type collabs signal_type s).2 in
  let s2 := (Simple_get_checkpoint collab s).2 in
  (∀ c, tracker_of c s1 = tracker_of c s)
  ∧ (∀ c, tracker_of c s2 = tracker_of c s)
  ∧ written s1 = written s ∧ backing s1 = backing s
  ∧ written s2 = written s ∧ backing s2 = backing s
  ∧ (∀ collabs' st, (Simple_get_for_signal_type collabs' st s1).1
                    = (Simple_get_for_signal_type collabs' st s).1)
  ∧ (∀ collabs' st, (Simple_get_for_signal_type collabs' st s2).1
                    = (Simple_get_for_signal_type collabs' st s).1).
Proof.
  intros s1 s2.
  assert (∀ c, tracker_of c s1 = tracker_of c s) as H1.
  { intros c. subst s1. unfold Simple_get_for_signal_type. rewrite Simple_get_loop_eq. csimpl.
    clear s2. revert s. induction collabs as [|c0 collabs IH]; intros s; [done|].
    csimpl. by rewrite IH, tracker_of_get_state. }
  assert (∀ c, tracker_of c s2 = tracker_of c s) as H2.
  { intros c. subst s2. rewrite Simple_get_checkpoint_eq. apply tracker_of_get_state. }
  assert (∀ s', (∀ c, tracker_of c s' = tracker_of c s) →
    ∀ collabs' st, (Simple_get_for_signal_type collabs' st s').1
                   = (Simple_get_for_signal_type collabs' st s).1) as Hsame.
  { intros s' Hs' collabs' st. rewrite !Simple_get_for_signal_type_eq. f_equal.
    unfold collect_records, Simple_records. generalize (∅ : gmap string (gmap string Meta)).
    induction collabs' as [|c0 collabs' IH]; intros ret; [done|]. csimpl.
    by rewrite Hs', IH. }
  assert (written s1 = written s ∧ backing s1 = backing s) as [Hw1 Hb1].
  { subst s1. unfold Simple_get_for_signal_type. rewrite Simple_get_loop_eq.
    apply get_states_backing. }
  assert (written s2 = written s ∧ backing s2 = backing s) as [Hw2 Hb2].
  { subst s2. rewrite Simple_get_checkpoint_eq. csimpl.
    by destruct (get_state_backing collab s) as [-> ->]. }
  split_and!; try done.
  - by apply Hsame.
  - by apply Hsame.
Qed.


(** The assertion of [flush], when it fails: on a dict whose first dirty
    tracker without a delta comes after well-formed trackers, [flush] raises
    [AssertionError] having written and marked clean the dirty trackers before
    it; that tracker and every one after it are left as they were. *)
Theorem Simple_flush_assertion_failure collab before n after b w :
  Forall (λ kt : string * _StateTracker, dirty kt.2 = true → is_Some (_delta kt.2)) before →
  let broken := (n, {| _delta := None; dirty := true |}) in
  Simple_flush collab {| _state := before ++ broken :: after; backing := b; written := w |}
  = (Raise AssertionError,
     {| _state := (prod_map id mark_clean <$> before) ++ broken :: after;
        backing := foldl (λ b nd, _write_state nd.1 nd.2 b) b (pending before);
        written := w ++ pending before |}).
Proof.
  intros Hall broken. unfold Simple_flush. csimpl.
  assert (flush_items (before ++ broken :: after) b w
    = (Raise AssertionError,
       ((prod_map id mark_clean <$> before) ++ broken :: after,
        foldl (λ b nd, _write_state nd.1 nd.2 b) b (pending before),
        w ++ pending before))) as ->; [|done].
  revert b w. induction Hall as [|[n' t] before Ht Hall IH]; intros b w; csimpl.
  - by rewrite app_nil_r.
  - destruct t as [[d|] [|]]; csimpl in *.
    + rewrite IH. csimpl. by rewrite <-app_assoc.
    + by rewrite IH.
    + by destruct Ht as [? [=]].
    + by rewrite IH.
Qed.

(** *** Hooks that read back what was written *)

(** A store in step with its backing store: a clean tracker holds what
    [_read_state] finds under its name. *)
Definition Simple_synced (s : SimpleFetchedStateStore) : Prop :=
  ∀ n t, dict_get n (_state s) = Some t → dirty t = false →
         _delta t = _read_state (backing s) n.

Lemma pending_get n items :
  NoDup items.*1 →
  dict_get n (pending items)
  = dict_get n items ≫= λ t, if dirty t then _delta t else None.
Proof.
  induction items as [|[n0 t0] items IH]; csimpl; [done|].
  rewrite NoDup_cons. intros [Hn0 Hnd]. specialize (IH Hnd).
  destruct (decide (n0 = n)) as [->|Hne].
  - assert (dict_get n (pending items) = None) as Hnone.
    { apply dict_get_None. intros Hin. apply Hn0.
      by apply (sublist_subseteq _ _ (pending_keys_sublist items)). }
    csimpl. destruct (dirty t0); csimpl; [|done].
    destruct (_delta t0); csimpl; [by rewrite decide_True | done].
  - rewrite <-IH. destruct (dirty t0); csimpl; [|done].
    destruct (_delta t0); csimpl; [by rewrite decide_False | done].
Qed.

Section lawful_hooks.
Hypothesis read_write_eq : ∀ n d b, _read_state (_write_state n d b) n = Some d.
Hypothesis read_write_ne :
  ∀ n n' d b, n ≠ n' → _read_state (_write_state n d b) n' = _read_state b n'.

Lemma read_after_writes (ws : list (string * FetchDelta)) b n :
  NoDup ws.*1 →
  _read_state (foldl (λ b nd, _write_state nd.1 nd.2 b) b ws) n
  = match dict_get n ws with
    | Some d => Some d
    | None => _read_state b n
    end.
Proof using read_write_eq read_write_ne.
  revert b. induction ws as [|[n0 d0] ws IH]; intros b; csimpl; [done|].
  rewrite NoDup_cons. intros [Hn0 Hnd]. rewrite (IH _ Hnd).
  destruct (decide (n0 = n)) as [->|Hne].
  - apply dict_get_None in Hn0. by rewrite Hn0, read_write_eq.
  - destruct (dict_get n ws); [done|]. by apply read_write_ne.
Qed.

(** After a [flush] of a well-formed store in step, what [_read_state] finds
    under a tracked name is the tracker's delta. *)
Lemma read_after_flush collab n s :
  Simple_wf s → Simple_synced s →
  _read_state (backing (Simple_flush collab s).2) n
  = match dict_get n (_state s) with
    | Some t => _delta t
    | None => _read_state (backing s) n
    end.
Proof using read_write_eq read_write_ne.
  intros Hwf Hsync. rewrite (Simple_flush_wf_eq collab s Hwf). csimpl.
  destruct Hwf as [Hnd Hall].
  rewrite read_after_writes by exact (sublist_NoDup _ _ Hnd (pending_keys_sublist _)).
  rewrite pending_get by done.
  destruct (dict_get n (_state s)) as [t|] eqn:Hget; csimpl; [|done].
  destruct (dirty t) eqn:Hd.
  - rewrite Forall_forall in Hall.
    destruct (Hall _ (dict_get_Some_elem _ _ _ Hget) Hd) as [d Hdelta]. csimpl in *.
    by rewrite Hdelta.
  - symmetry. by apply Hsync.
Qed.

Lemma get_state_synced collab s : Simple_synced s → Simple_synced (_get_state collab s).2.
Proof using Type.
  intros Hsync n t. unfold _get_state.
  destruct (dict_get (name collab) (_state s)) eqn:Hget; csimpl; [apply Hsync|].
  destruct (decide (name collab = n)) as [<-|Hne].
  - rewrite dict_get_set_eq. by intros [= <-] _.
  - rewrite dict_get_set_ne by done. apply Hsync.
Qed.

Lemma Simple_do_synced o s :
  Simple_wf s → Simple_synced s → Simple_synced (Simple_do o s).
Proof using read_write_eq read_write_ne.
  intros Hwf Hsync. destruct o as [c|c|c d|c|cs st|c]; csimpl.
  - rewrite Simple_get_checkpoint_eq. by apply get_state_synced.
  - intros n t. csimpl. destruct (decide (name c = n)) as [<-|Hne].
    + destruct Hwf as [Hnd _]. by rewrite dict_get_pop_eq.
    + rewrite dict_get_pop_ne by done. apply Hsync.
  - rewrite Simple_merge_eq. destruct (is_noop _ _); csimpl; [by apply get_state_synced|].
    intros n t. csimpl. destruct (get_state_backing c s) as [_ Hb].
    destruct (decide (name c = n)) as [<-|Hne].
    + rewrite dict_get_set_eq. intros [= <-]. by rewrite Tracker_set_delta_eq.
    + rewrite dict_get_set_ne by done. apply (get_state_synced c s Hsync).
  - intros n t Hget Hclean. rewrite read_after_flush by done.
    rewrite (Simple_flush_wf_eq c s Hwf) in Hget. csimpl in Hget.
    rewrite dict_get_fmap in Hget. by destruct (dict_get n (_state s)); simplify_eq/=.
  - unfold Simple_get_for_signal_type. rewrite Simple_get_loop_eq. csimpl.
    clear Hwf. revert s Hsync. induction cs as [|c cs IH]; intros s Hsync; [done|].
    csimpl. by apply IH, get_state_synced.
  - done.
Qed.

Lemma Simple_run_synced b calls : Simple_synced (Simple_run calls (Simple_init b)).
Proof using read_write_eq read_write_ne.
  assert (∀ s, Simple_wf s → Simple_synced s → Simple_synced (Simple_run calls s)) as Hgen.
  { induction calls as [|o calls IH]; intros s Hwf Hsync; [done|].
    csimpl. apply IH; [by apply Simple_do_wf | by apply Simple_do_synced]. }
  apply Hgen; [apply Simple_wf_init | by intros n t [=]].
Qed.

(** Round trip through the hooks.  When [_read_state] finds under a name the
    delta last handed to [_write_state] under that name, and a write under
    one name does not change what is read under another: on a store reached
    from a new one, [flush] then [clear] of a collaboration lose nothing of
    it; the next access loads a clean tracker with the delta the tracker had,
    so [get_checkpoint] and the records the collaboration contributes are as
    before. *)
Theorem Simple_flush_clear_reload b calls collab collab' :
  let s := Simple_run calls (Simple_init b) in
  let s2 := (Simple_clear collab (Simple_flush collab' s).2).2 in
  tracker_of collab s2 = mark_clean (tracker_of collab s)
  ∧ (Simple_get_checkpoint collab s2).1 = (Simple_get_checkpoint collab s).1
  ∧ (∀ st, Simple_records collab st s2 = Simple_records collab st s).
Proof using read_write_eq read_write_ne.
  intros s s2.
  assert (Simple_wf s) as Hwf by apply Simple_run_wf, Simple_wf_init.
  assert (Simple_synced s) as Hsync by apply Simple_run_synced.
  assert (tracker_of collab s2 = mark_clean (tracker_of collab s)) as Htr.
  { subst s2. unfold tracker_of at 1. csimpl.
    rewrite dict_get_pop_eq by (by destruct (flush_wf collab' s Hwf)). csimpl.
    rewrite read_after_flush by done. unfold tracker_of.
    by destruct (dict_get (name collab) (_state s)). }
  split; [exact Htr|]. split.
  - rewrite !Simple_get_checkpoint_eq. csimpl. by rewrite Htr.
  - intros st. unfold Simple_records. by rewrite Htr.
Qed.

End lawful_hooks.

(** ** Further properties of the persistent store *)

Lemma ns_lookup_set ns key value ns' σ :
  namespaces (db_set ns key value σ) !! ns'
  = if decide (ns = ns') then Some (<[key := value]> (db_items ns σ))
    else namespaces σ !! ns'.
Proof.
  unfold db_set, db_items. csimpl. destruct (decide (ns = ns')) as [->|Hne].
  - by rewrite lookup_insert_eq.
  - by rewrite lookup_insert_ne.
Qed.

Lemma ns_lookup_write_updates db items ns σ :
  namespaces (DBM_write_updates db items σ) !! ns
  = if decide (db = ns ∧ items ≠ [])
    then Some (foldl (λ m kv, <[kv.1 := kv.2]> m) (db_items ns σ) items)
    else namespaces σ !! ns.
Proof.
  unfold DBM_write_updates. revert σ. induction items as [|[k v] items IH]; intros σ; csimpl.
  - by rewrite decide_False by (by intros [_ ?]).
  - rewrite IH, ns_lookup_set, db_items_set. destruct (decide (db = ns)) as [->|Hne].
    + rewrite (decide_True (P := ns = ns ∧ (k, v) :: items ≠ [])) by done.
      destruct items as [|kv items]; [|by rewrite decide_True].
      by rewrite decide_False by (by intros [_ ?]).
    + by rewrite !decide_False by (by intros [? _]).
Qed.

(** The namespaces after a [merge]. *)
Lemma DBM_merge_ns collab delta σ ns :
  namespaces (DBM_merge collab delta σ) !! ns
  = if is_noop delta (DBM_get_checkpoint collab σ) then namespaces σ !! ns
    else if decide (checkpoint_ns collab = ns)
         then Some (<["_checkpoint" := checkpoint delta]> (db_items ns σ))
    else if decide (name collab = ns ∧ updates delta ≠ ∅)
         then Some (updates delta ∪ db_items ns σ)
    else namespaces σ !! ns.
Proof.
  unfold DBM_merge, DBM_get_checkpoint. destruct (is_noop _ _); [done|].
  rewrite ns_lookup_set. destruct (decide (checkpoint_ns collab = ns)) as [<-|Hcp].
  - rewrite write_updates_items. by rewrite decide_False by apply checkpoint_ns_ne.
  - rewrite ns_lookup_write_updates.
    destruct (decide (name collab = ns ∧ updates delta ≠ ∅)) as [[<- Hupd]|Hno].
    + rewrite decide_True by (by rewrite map_to_list_empty_iff).
      by rewrite foldl_insert_map_to_list.
    + rewrite decide_False; [done|]. intros [Hn Hl]. apply Hno. split; [done|].
      intros Hupd. apply Hl. by apply map_to_list_empty_iff.
Qed.

(** Read-back of a persistent [merge]: after a merge that is not a no-op,
    every key of the delta reads its new value in the data namespace, a key
    the delta does not have reads what it read before (so no key is ever
    removed, a record whose value is [None] included), and the staged
    checkpoint is the delta's. *)
Theorem DBM_merge_reads_back collab delta σ :
  is_noop delta (DBM_get_checkpoint collab σ) = false →
  let σ' := DBM_merge collab delta σ in
  (∀ k v, updates delta !! k = Some v → db_items (name collab) σ' !! k = Some v)
  ∧ (∀ k, updates delta !! k = None →
       db_items (name collab) σ' !! k = db_items (name collab) σ !! k)
  ∧ dom (db_items (name collab) σ) ⊆ dom (db_items (name collab) σ')
  ∧ db_get (checkpoint_ns collab) "_checkpoint" σ' = checkpoint delta.
Proof.
  intros Hnoop σ'. subst σ'. rewrite DBM_merge_items, Hnoop. split_and!.
  - intros k v Hk. by apply lookup_union_Some_l.
  - intros k Hk. by apply lookup_union_r.
  - rewrite dom_union_L. apply union_subseteq_r.
  - by rewrite DBM_merge_checkpoint_ns, Hnoop, decide_True.
Qed.

(** [exists] after [merge]: the data namespace exists afterwards exactly when
    it existed before or the delta carried updates.  A delta that is only a
    checkpoint stages it without creating the data namespace, so [exists]
    can be false for a collaboration that has a checkpoint. *)
Theorem DBM_exists_after_merge collab delta σ :
  DBM_exists collab (DBM_merge collab delta σ)
  = DBM_exists collab σ || negb (bool_decide (updates delta = ∅)).
Proof.
  unfold DBM_exists, db_exists. rewrite DBM_merge_ns.
  destruct (is_noop delta _) eqn:Hnoop.
  - apply is_noop_updates in Hnoop. rewrite (bool_decide_eq_true_2 _ Hnoop). csimpl.
    by rewrite orb_false_r.
  - rewrite decide_False by (intros ?; by apply (checkpoint_ns_ne collab)).
    destruct (decide (updates delta = ∅)) as [Hupd|Hupd].
    + rewrite decide_False by (by intros [_ ?]).
      rewrite (bool_decide_eq_true_2 _ Hupd). csimpl. by rewrite orb_false_r.
    + rewrite decide_True by done. rewrite (bool_decide_eq_false_2 _ Hupd). csimpl.
      by rewrite orb_true_r.
Qed.

(** Replay of a delta: merging the same delta a second time leaves the
    contents of every namespace as the first merge left them; and when the
    first merge was not a no-op, merging it again after a [flush] leaves them
    as the flush left them. *)
Theorem DBM_merge_replay collab delta σ :
  namespaces (DBM_merge collab delta (DBM_merge collab delta σ))
  = namespaces (DBM_merge collab delta σ)
  ∧ (is_noop delta (DBM_get_checkpoint collab σ) = false →
     namespaces (DBM_merge collab delta (DBM_flush collab (DBM_merge collab delta σ)))
     = namespaces (DBM_flush collab (DBM_merge collab delta σ))).
Proof.
  assert (DBM_get_checkpoint collab (DBM_merge collab delta σ) = DBM_get_checkpoint collab σ)
    as Hcommitted.
  { unfold DBM_get_checkpoint at 1. rewrite DBM_merge_checkpoint_ns.
    destruct (is_noop _ _); [done|]. by rewrite decide_False. }
  split.
  - apply map_eq. intros ns. rewrite (DBM_merge_ns collab delta (DBM_merge collab delta σ)).
    rewrite Hcommitted. destruct (is_noop delta (DBM_get_checkpoint collab σ)) eqn:Hnoop; [done|].
    rewrite !DBM_merge_ns, Hnoop.
    destruct (decide (checkpoint_ns collab = ns)) as [<-|Hcp].
    + f_equal. unfold db_items at 1. rewrite DBM_merge_ns, Hnoop, decide_True by done.
      csimpl. by rewrite insert_insert_eq.
    + destruct (decide (name collab = ns ∧ updates delta ≠ ∅)) as [[<- Hupd]|Hno]; [|done].
      f_equal. rewrite DBM_merge_items, Hnoop.
      by rewrite (assoc_L (∪)), (idemp_L (∪)).
  - intros Hnoop. set (σ1 := DBM_merge collab delta σ).
    assert (db_get (checkpoint_ns collab) "_checkpoint" σ1 = checkpoint delta) as Hstaged.
    { subst σ1. by rewrite DBM_merge_checkpoint_ns, Hnoop, decide_True. }
    apply map_eq. intros ns. rewrite (DBM_merge_ns collab delta (DBM_flush collab σ1)).
    destruct (is_noop delta (DBM_get_checkpoint collab (DBM_flush collab σ1))); [done|].
    assert (∀ ns', db_items ns' (DBM_flush collab σ1)
      = if decide (checkpoint_ns collab = ns')
        then <["checkpoint" := checkpoint delta]> (db_items ns' σ1)
        else db_items ns' σ1) as Hitems.
    { intros ns'. unfold DBM_flush. by rewrite db_items_set, Hstaged. }
    assert (namespaces (DBM_flush collab σ1) !! ns
      = if decide (checkpoint_ns collab = ns)
        then Some (<["checkpoint" := checkpoint delta]> (db_items (checkpoint_ns collab) σ1))
        else namespaces σ1 !! ns) as ->.
    { unfold DBM_flush. by rewrite ns_lookup_set, Hstaged. }
    rewrite Hitems.
    destruct (decide (checkpoint_ns collab = ns)) as [<-|Hcp].
    + f_equal. apply insert_id. rewrite lookup_insert_ne by done.
      subst σ1. unfold db_items. rewrite DBM_merge_ns, Hnoop, decide_True by done.
      csimpl. by rewrite lookup_insert_eq.
    + destruct (decide (name collab = ns ∧ updates delta ≠ ∅)) as [[<- Hupd]|Hno]; [|done].
      subst σ1. rewrite DBM_merge_ns, Hnoop.
      rewrite decide_False, decide_True by done. f_equal.
      rewrite DBM_merge_items, Hnoop. by rewrite (assoc_L (∪)), (idemp_L (∪)).
Qed.

(** A run of persistent merges with no [flush] in between: the data
    namespace holds the update maps laid over what it held, a later delta
    over an earlier one; the committed checkpoint stays, so every delta is
    tested against the same one; the staged checkpoint is that of the last
    delta that was not a no-op; and a [flush] then commits it. *)
Theorem DBM_merges_accumulate collab deltas σ :
  let σ' := DBM_run (Merge collab <$> deltas) σ in
  let committed := DBM_get_checkpoint collab σ in
  let staged :=
    foldl (λ st d, if is_noop d committed then st else checkpoint d)
      (db_get (checkpoint_ns collab) "_checkpoint" σ) deltas in
  db_items (name collab) σ'
  = foldl (λ acc d, updates d ∪ acc) (db_items (name collab) σ) deltas
  ∧ DBM_get_checkpoint collab σ' = committed
  ∧ db_get (checkpoint_ns collab) "_checkpoint" σ' = staged
  ∧ DBM_get_checkpoint collab (DBM_flush collab σ') = staged.
Proof.
  intros σ' committed staged.
  assert (db_items (name collab) σ'
          = foldl (λ acc d, updates d ∪ acc) (db_items (name collab) σ) deltas
          ∧ DBM_get_checkpoint collab σ' = committed
          ∧ db_get (checkpoint_ns collab) "_checkpoint" σ' = staged) as (Hitems & Hco & Hst).
  { subst σ' committed staged. unfold DBM_run. revert σ.
    induction deltas as [|d deltas IH]; intros σ; [done|]. csimpl.
    destruct (IH (DBM_merge collab d σ)) as (-> & -> & ->).
    assert (DBM_get_checkpoint collab (DBM_merge collab d σ) = DBM_get_checkpoint collab σ)
      as ->.
    { apply (DBM_do_committed (Merge collab d)); [done|].
      by apply own_call_data_ns; intros c [= ->]. }
    rewrite DBM_merge_items, DBM_merge_checkpoint_ns, decide_True by done.
    destruct (is_noop d (DBM_get_checkpoint collab σ)) eqn:Hnoop; [|done].
    by rewrite (is_noop_updates _ _ Hnoop), (left_id_L ∅ (∪)). }
  split_and!; try done.
  unfold DBM_get_checkpoint, DBM_flush. by rewrite db_get_set, decide_True.
Qed.

(** *** Completeness of [get_for_signal_type] *)

Lemma collect_records_other records collabs ret n :
  n ∉ name <$> collabs → collect_records records collabs ret !! n = ret !! n.
Proof.
  unfold collect_records. revert ret.
  induction collabs as [|c collabs IH]; intros ret; csimpl; [done|].
  rewrite not_elem_of_cons. intros [Hne Hnin]. rewrite IH by done.
  destruct (decide (records c = ∅)); [done|]. by rewrite lookup_insert_ne.
Qed.

Lemma collect_records_NoDup records collabs ret c :
  NoDup (name <$> collabs) → c ∈ collabs →
  collect_records records collabs ret !! name c
  = if decide (records c = ∅) then ret !! name c else Some (records c).
Proof.
  revert ret. induction collabs as [|c0 collabs IH]; intros ret; csimpl.
  - by intros _ ?%elem_of_nil.
  - rewrite NoDup_cons. intros [Hc0 Hnd] Hin.
    change (collect_records records (c0 :: collabs) ret)
      with (collect_records records collabs
              (if decide (records c0 = ∅) then ret else <[name c0 := records c0]> ret)).
    destruct (decide (name c = name c0)) as [Heq|Hne].
    + assert (c = c0) as ->.
      { apply elem_of_cons in Hin as [?|Hin]; [done|]. destruct Hc0. rewrite <-Heq.
        apply list_elem_of_fmap. by exists c. }
      rewrite collect_records_other by done.
      destruct (decide (records c0 = ∅)); [done|]. by rewrite lookup_insert_eq.
    + apply elem_of_cons in Hin as [->|Hin]; [done|]. rewrite IH by done.
      destruct (decide (records c = ∅)); [|done].
      destruct (decide (records c0 = ∅)); [done|]. by rewrite lookup_insert_ne.
Qed.

(** When the collaborations of the list have distinct names, the mapping of
    [get_for_signal_type] has, for each of them, exactly its contribution:
    no entry when it contributes no record, else the records it contributes;
    in both stores. *)
Theorem get_for_signal_type_complete collabs signal_type :
  NoDup (name <$> collabs) →
  (∀ s c, c ∈ collabs →
     ∃ ret, (Simple_get_for_signal_type collabs signal_type s).1 = Ok ret
       ∧ ret !! name c
         = if decide (Simple_records c signal_type s = ∅) then None
           else Some (Simple_records c signal_type s))
  ∧ (∀ σ c, c ∈ collabs →
       DBM_get_for_signal_type collabs signal_type σ !! name c
       = if decide (DBM_records c signal_type σ = ∅) then None
         else Some (DBM_records c signal_type σ)).
Proof.
  intros Hnd. split.
  - intros s c Hin. eexists. split; [apply Simple_get_for_signal_type_eq|].
    by rewrite (collect_records_NoDup _ _ _ c Hnd Hin), lookup_empty.
  - intros σ c Hin. rewrite DBM_get_for_signal_type_eq.
    by rewrite (collect_records_NoDup _ _ _ c Hnd Hin), lookup_empty.
Qed.

(** Persistent reads do not wait for [flush]: after a [merge] that is not a
    no-op the records [get_for_signal_type] converts for the collaboration are
    those of the delta laid over the stored ones, although [get_checkpoint]
    still returns the checkpoint committed before; and [flush] changes no
    record of the collaboration. *)
Theorem DBM_records_visible_before_flush collab delta st σ :
  is_noop delta (DBM_get_checkpoint collab σ) = false →
  DBM_records collab st (DBM_merge collab delta σ)
  = default ∅ (naive_convert_to_signal_type [st] collab
                 (updates delta ∪ db_items (name collab) σ) !! st)
  ∧ DBM_get_checkpoint collab (DBM_merge collab delta σ) = DBM_get_checkpoint collab σ
  ∧ DBM_records collab st (DBM_flush collab (DBM_merge collab delta σ))
    = DBM_records collab st (DBM_merge collab delta σ).
Proof.
  intros Hnoop. unfold DBM_records. split_and!.
  - by rewrite DBM_merge_items, Hnoop.
  - unfold DBM_get_checkpoint at 1. rewrite DBM_merge_checkpoint_ns, Hnoop.
    by rewrite decide_False.
  - unfold DBM_flush. rewrite db_items_set.
    by rewrite decide_False by (intros ?; by apply (checkpoint_ns_ne collab)).
Qed.

(** Resuming from a snapshot.  On a new store, the first access to a
    collaboration loads what [_read_state] finds: [get_checkpoint] returns the
    snapshot's checkpoint ([None] without a snapshot), and merges accumulate
    on the snapshot: the tracker keeps the snapshot, clean, while every delta
    is a no-op, and else holds the fold of the deltas that passed the no-op
    test, started from the snapshot's update map, with the checkpoint of the
    last of them. *)
Theorem Simple_resume_from_snapshot b collab deltas :
  let snapshot := Tracker_new (_read_state b (name collab)) in
  let s := Simple_run (Merge collab <$> deltas) (Simple_init b) in
  (Simple_get_checkpoint collab (Simple_init b)).1 = Ok (known_checkpoint snapshot)
  ∧ tracker_of collab s
    = match applied (known_checkpoint snapshot) deltas with
      | [] => snapshot
      | d :: rest =>
          {| _delta := Some {| updates := foldl naive_fetch_merge (tracker_updates snapshot)
                                            (updates <$> d :: rest);
                               checkpoint := checkpoint (List.last rest d) |};
             dirty := true |}
      end.
Proof.
  intros snapshot s. split.
  - by rewrite Simple_get_checkpoint_eq.
  - subst s. by rewrite Simple_run_merges_tracker, merge_steps_applied.
Qed.

End helpers.


(** ** A concrete instance *)

Inductive pyval := PNone | PInt (n : nat).

#[global] Instance pyval_eq_dec : EqDecision pyval.
Proof. solve_decision. Defined.

(** Modelled from the spec: an instance of the external merge function, which
    "combines them in place (new values may overwrite, augment, or delete
    existing keys)": a key of the new batch whose value is [None] is deleted,
    any other is overwritten. *)
Definition tombstone_merge (old new : gmap string pyval) : gmap string pyval :=
  map_fold (λ k v old, match v with PNone => delete k old | _ => <[k := v]> old end) old new.

(** An instance of the external converter: every record converts, as itself,
    to each requested signal type. *)
Definition all_convert (signal_types : list nat) (collab : string)
    (m : gmap string pyval) : gmap nat (gmap string pyval) :=
  list_to_map ((λ st, (st, m)) <$> signal_types).

(** A backing store for the in-memory strategy: the last snapshot written
    under each collaboration name. *)
Definition snap_read (b : gmap string (@FetchDelta pyval)) (collab_name : string)
  : option (@FetchDelta pyval) := b !! collab_name.
Definition snap_write (collab_name : string) (d : @FetchDelta pyval)
    (b : gmap string (@FetchDelta pyval)) : gmap string (@FetchDelta pyval) :=
  <[collab_name := d]> b.

(** The stores at this instance: collaborations are their names, signal types
    are numbers. *)
Definition ex_run := Simple_run PNone id tombstone_merge all_convert snap_read snap_write.
Definition ex_get_checkpoint := Simple_get_checkpoint PNone (Collab := string) id snap_read.
Definition ex_dbm_run := DBM_run (SignalType := nat) PNone (Collab := string) id.
Definition ex_dbm_get_checkpoint := DBM_get_checkpoint PNone (Collab := string) id.

(** Deltas: one record and checkpoint 10; a tombstone for it and checkpoint
    11; another record and checkpoint 11; checkpoint 10 alone; nothing. *)
Definition delta_a : @FetchDelta pyval := mkDelta {["a" := PInt 1]} (PInt 10).
Definition delta_b : @FetchDelta pyval := mkDelta {["b" := PInt 2]} (PInt 11).
Definition delta_cp : @FetchDelta pyval := mkDelta ∅ (PInt 10).
Definition delta_nil : @FetchDelta pyval := mkDelta ∅ PNone.

(** ** Instances of the theorems and inputs that refute the claims as stated *)


(** C2 does not hold as stated: a last delta with no updates and no
    checkpoint is skipped, and the tracker keeps the checkpoint before it. *)
Lemma last_delta_checkpoint_not_taken :
  let s := ex_run [Merge "x" delta_a; Merge "x" delta_nil] (Simple_init ∅) in
  last [delta_a; delta_nil] = Some delta_nil
  ∧ (ex_get_checkpoint "x" s).1 = Ok (PInt 10)
  ∧ (ex_get_checkpoint "x" s).1 ≠ Ok (checkpoint delta_nil).
Proof. split; [reflexivity|]. split; [reflexivity|]. intros [=]. Qed.

Lemma merges_accumulate_witness :
  let s := ex_run (Merge "x" <$> [delta_a; delta_b; delta_nil]) (Simple_init ∅) in
  Tracker_empty (tracker_of id snap_read "x" (Simple_init ∅)) = true
  ∧ _delta (tracker_of id snap_read "x" s)
    = Some (mkDelta (foldl tombstone_merge ∅ (updates <$> [delta_a; delta_b])) (PInt 11)).
Proof.
  assert (Tracker_empty (tracker_of id snap_read "x" (Simple_init ∅)) = true) as Hempty
    by reflexivity.
  split; [exact Hempty|].
  destruct (merges_accumulate PNone id tombstone_merge all_convert snap_read snap_write
              "x" [delta_a; delta_b; delta_nil] (Simple_init ∅) Hempty) as (Hdelta & _).
  exact Hdelta.
Defined.

Lemma noop_merge_changes_nothing_witness :
  let s := ex_run [Merge "x" delta_a] (Simple_init ∅) in
  let σ := ex_dbm_run [Merge "x" delta_a; Flush "x"] DBM_empty in
  updates delta_cp = ∅
  ∧ (ex_get_checkpoint "x" s).1 = Ok (checkpoint delta_cp)
  ∧ ex_dbm_get_checkpoint "x" σ = checkpoint delta_cp
  ∧ (Simple_merge PNone id tombstone_merge snap_read "x" delta_cp s).2 = s
  ∧ DBM_merge PNone id "x" delta_cp σ = σ.
Proof.
  intros s σ.
  assert (updates delta_cp = ∅) as Hupd by reflexivity.
  assert ((ex_get_checkpoint "x" s).1 = Ok (checkpoint delta_cp)) as Hmem by reflexivity.
  assert (ex_dbm_get_checkpoint "x" σ = checkpoint delta_cp) as Hdbm by reflexivity.
  destruct (noop_merge_changes_nothing PNone id tombstone_merge snap_read "x" delta_cp
              (checkpoint delta_cp) Hupd (or_intror eq_refl)) as [Hsimple Hpersistent].
  split_and!; [exact Hupd | exact Hmem | exact Hdbm | | exact (Hpersistent σ Hdbm)].
  destruct (Hsimple s Hmem) as (_ & _ & _ & _ & _ & _ & Hsame).
  apply Hsame. by eexists.
Defined.

(** C4 does not hold as stated: the persistent [flush] sets the committed
    key each time, on storage no merge ever touched (where it creates the key)
    and right after another flush (where it rewrites the same value). *)
Lemma persistent_flush_always_writes :
  let σ := ex_dbm_run [Merge "x" delta_a; Flush "x"] DBM_empty in
  journal (DBM_flush PNone id "x" DBM_empty) = [WSet "x_checkpoint" "checkpoint" PNone]
  ∧ namespaces (DBM_flush PNone id "x" DBM_empty) ≠ namespaces DBM_empty
  ∧ journal (DBM_flush PNone id "x" σ) = journal σ ++ [WSet "x_checkpoint" "checkpoint" (PInt 10)].
Proof.
  split; [reflexivity|]. split; [|reflexivity].
  intros Heq. apply (f_equal (λ m, m !! "x_checkpoint")) in Heq. vm_compute in Heq. done.
Qed.



(** C6 does not hold as stated: in memory, [clear] forgets the tracker but
    leaves the flushed snapshot in the backing store, and the next access
    loads it again. *)
Lemma clear_keeps_flushed_snapshot :
  let s := ex_run [Merge "x" delta_a; Flush "x"; Clear "x"] (Simple_init ∅) in
  _state s = []
  ∧ backing s !! "x" = Some (mkDelta (tombstone_merge ∅ (updates delta_a)) (PInt 10))
  ∧ (ex_get_checkpoint "x" s).1 = Ok (PInt 10).
Proof. split; [reflexivity|]. split; reflexivity. Qed.

(** C8 does not hold as stated: on an empty tracker the [checkpoint] getter
    returns [None], it does not fail. *)
Lemma empty_tracker_checkpoint_returns :
  Tracker_empty (Tracker_new (Val := pyval) None) = true
  ∧ Tracker_checkpoint PNone (Tracker_new None) ≠ Raise AssertionError.
Proof. split; [reflexivity | intros [=]]. Qed.

Lemma empty_tracker_access_witness :
  Tracker_empty (Tracker_new (Val := pyval) None) = true
  ∧ Tracker_delta (Tracker_new (Val := pyval) None) = Raise AssertionError
  ∧ Tracker_checkpoint PNone (Tracker_new None) = Ok PNone.
Proof.
  split; [reflexivity|]. apply (empty_tracker_access PNone (Tracker_new None)). reflexivity.
Defined.

Lemma DBM_other_collaboration_frame_witness :
  let σ := ex_dbm_run [Merge "x" delta_a; Flush "x"] DBM_empty in
  ex_dbm_get_checkpoint "x" (DBM_do (SignalType := nat) PNone id (Merge "y" delta_b) σ)
  = PInt 10.
Proof.
  intros σ.
  rewrite (DBM_other_collaboration_frame PNone id (SignalType := nat)
             (Merge "y" delta_b) "x" σ).
  - reflexivity.
  - intros c [= <-]. discriminate.
  - discriminate.
Defined.

(** The name apart: dropping the data of a collaboration called
    ["x_checkpoint"] drops the checkpoints of collaboration ["x"]. *)
Lemma checkpoint_namespace_clash :
  let σ := ex_dbm_run [Merge "x" delta_a; Flush "x"] DBM_empty in
  ex_dbm_get_checkpoint "x" σ = PInt 10
  ∧ ex_dbm_get_checkpoint "x" (DBM_do (SignalType := nat) PNone id (Clear "x_checkpoint") σ)
    = PNone.
Proof. split; reflexivity. Qed.
(** ** Instances of the further properties *)

Lemma Simple_merge_checkpoint_at_once_witness :
  let s := ex_run [Merge "x" delta_a; Flush "x"] (Simple_init ∅) in
  let s' := (Simple_merge PNone id tombstone_merge snap_read "x" delta_b s).2 in
  is_noop PNone delta_b (known_checkpoint PNone (tracker_of id snap_read "x" s)) = false
  ∧ (ex_get_checkpoint "x" s').1 = Ok (PInt 11)
  ∧ written s' = written s.
Proof.
  intros s s'.
  assert (is_noop PNone delta_b (known_checkpoint PNone (tracker_of id snap_read "x" s)) = false)
    as Hnoop by reflexivity.
  destruct (Simple_merge_checkpoint_at_once PNone id tombstone_merge snap_read snap_write
              "x" delta_b s Hnoop) as (Hcp & _ & _ & Hw & _).
  split; [exact Hnoop|]. split; [exact Hcp | exact Hw].
Defined.

Lemma Simple_merge_then_flush_witness :
  let s := ex_run [Merge "x" delta_a; Flush "x"; Merge "y" delta_b] (Simple_init ∅) in
  let s2 := (Simple_flush snap_write "x"
               (Simple_merge PNone id tombstone_merge snap_read "x" delta_b s).2).2 in
  is_noop PNone delta_b (known_checkpoint PNone (tracker_of id snap_read "x" s)) = false
  ∧ dirty (tracker_of id snap_read "x" s2) = false
  ∧ (known_checkpoint PNone (tracker_of id snap_read "x" s2)) = PInt 11.
Proof.
  intros s s2.
  assert (is_noop PNone delta_b (known_checkpoint PNone (tracker_of id snap_read "x" s)) = false)
    as Hnoop by reflexivity.
  destruct (Simple_merge_then_flush PNone id tombstone_merge all_convert snap_read snap_write
              ∅ [Merge "x" delta_a; Flush "x"; Merge "y" delta_b] "x" delta_b "x" Hnoop)
    as (ws & _ & _ & _ & Htr).
  split; [exact Hnoop|]. subst s2 s. unfold ex_run. rewrite Htr. split; reflexivity.
Defined.


Lemma Simple_flush_assertion_failure_witness :
  let clean_x := ("x", {| _delta := Some delta_a; dirty := false |}) in
  let dirty_y := ("y", {| _delta := Some delta_b; dirty := true |}) in
  let broken_z := ("z", {| _delta := None; dirty := true |}) in
  let dirty_w := ("w", {| _delta := Some delta_a; dirty := true |}) in
  Simple_flush (Collab := string) snap_write "x"
    {| _state := [clean_x; dirty_y; broken_z; dirty_w]; backing := ∅; written := [] |}
  = (Raise AssertionError,
     {| _state := [clean_x; ("y", {| _delta := Some delta_b; dirty := false |});
                   broken_z; dirty_w];
        backing := {["y" := delta_b]};
        written := [("y", delta_b)] |}).
Proof.
  intros clean_x dirty_y broken_z dirty_w.
  apply (Simple_flush_assertion_failure (Collab := string) snap_write "x"
           [clean_x; dirty_y] "z" [dirty_w] ∅ []).
  repeat apply Forall_cons_2; [discriminate | by eexists | apply Forall_nil_2].
Defined.

Lemma Simple_flush_clear_reload_witness :
  let s := ex_run [Merge "x" delta_a; Merge "y" delta_b; Merge "x" delta_b] (Simple_init ∅) in
  let s2 := (Simple_clear id "x" (Simple_flush snap_write "y" s).2).2 in
  dict_get "x" (_state s2) = None
  ∧ (ex_get_checkpoint "x" s).1 = Ok (PInt 11)
  ∧ (ex_get_checkpoint "x" s2).1 = (ex_get_checkpoint "x" s).1.
Proof.
  intros s s2. split; [reflexivity|]. split; [reflexivity|].
  assert (∀ n d b, snap_read (snap_write n d b) n = Some d) as Heq.
  { intros n d b. unfold snap_read, snap_write. apply lookup_insert_eq. }
  assert (∀ n n' d b, n ≠ n' → snap_read (snap_write n d b) n' = snap_read b n') as Hne.
  { intros n n' d b Hnn. unfold snap_read, snap_write. by apply lookup_insert_ne. }
  destruct (Simple_flush_clear_reload PNone id tombstone_merge all_convert snap_read snap_write
              Heq Hne ∅ [Merge "x" delta_a; Merge "y" delta_b; Merge "x" delta_b] "x" "y")
    as (_ & Hcp & _).
  exact Hcp.
Defined.

Lemma DBM_merge_reads_back_witness :
  let σ := ex_dbm_run [Merge "x" delta_a; Flush "x"] DBM_empty in
  let σ' := DBM_merge PNone id "x" delta_b σ in
  is_noop PNone delta_b (ex_dbm_get_checkpoint "x" σ) = false
  ∧ db_items "x" σ' !! "b" = Some (PInt 2)
  ∧ db_items "x" σ' !! "a" = db_items "x" σ !! "a"
  ∧ db_get PNone "x_checkpoint" "_checkpoint" σ' = PInt 11.
Proof.
  intros σ σ'.
  assert (is_noop PNone delta_b (ex_dbm_get_checkpoint "x" σ) = false) as Hnoop by reflexivity.
  destruct (DBM_merge_reads_back PNone id "x" delta_b σ Hnoop) as (Hin & Hout & _ & Hst).
  split; [exact Hnoop|]. split; [|split].
  - apply (Hin "b" (PInt 2)). reflexivity.
  - apply (Hout "a"). reflexivity.
  - exact Hst.
Defined.

Lemma DBM_records_visible_before_flush_witness :
  let σ := ex_dbm_run [Merge "x" delta_a; Flush "x"] DBM_empty in
  let σ' := DBM_merge PNone id "x" delta_b σ in
  is_noop PNone delta_b (ex_dbm_get_checkpoint "x" σ) = false
  ∧ DBM_records id all_convert "x" 0 σ' = {["a" := PInt 1; "b" := PInt 2]}
  ∧ ex_dbm_get_checkpoint "x" σ' = PInt 10.
Proof.
  intros σ σ'.
  assert (is_noop PNone delta_b (ex_dbm_get_checkpoint "x" σ) = false) as Hnoop by reflexivity.
  destruct (DBM_records_visible_before_flush PNone id all_convert "x" delta_b 0 σ Hnoop)
    as (Hrec & Hcp & _).
  split; [exact Hnoop|]. split.
  - subst σ'. rewrite Hrec. apply map_eq. intros k. vm_compute. reflexivity.
  - subst σ'. unfold ex_dbm_get_checkpoint. rewrite Hcp. reflexivity.
Defined.

Lemma get_for_signal_type_complete_witness :
  let σ := ex_dbm_run [Merge "x" delta_a; Merge "y" delta_nil] DBM_empty in
  NoDup (id <$> ["x"; "y"])
  ∧ DBM_get_for_signal_type id all_convert ["x"; "y"] 0 σ !! "x"
    = Some (DBM_records id all_convert "x" 0 σ)
  ∧ DBM_get_for_signal_type id all_convert ["x"; "y"] 0 σ !! "y" = None.
Proof.
  intros σ.
  assert (NoDup (id <$> ["x"; "y"])) as Hnd.
  { apply NoDup_cons. split; [|apply NoDup_singleton].
    intros Hin%list_elem_of_singleton. discriminate. }
  destruct (get_for_signal_type_complete id all_convert snap_read ["x"; "y"] 0 Hnd)
    as [_ Hdbm].
  split; [exact Hnd|]. split.
  - etrans; [apply (Hdbm σ "x"); apply elem_of_cons; by left | reflexivity].
  - etrans; [apply (Hdbm σ "y"); apply elem_of_cons; right; apply elem_of_cons; by left |].
    reflexivity.
Defined.
